(** * A two-pass MIPS assembler, embedded and verified

    This development embeds [assembly.py] in Rocq and proves properties of
    its encoder ([assemble]) and of its two passes ([first_pass],
    [second_pass]).

    Conventions of the embedding.
    - A Python [str] is a [string]; each [ascii] stands for the code point of
      the same number, so the model covers texts over code points 0..255.
    - A Python [int] is a [Z]; [>>] is [Z.shiftr], [%] is [Z.modulo] (both
      round towards minus infinity, as Python does).
    - Every exception the program raises is a [ValueError]; [result] carries
      one constructor of [error] per raise site.
    - The symbol table, a Python [dict], is a [gmap string Z]. *)

From Stdlib Require Import ZArith Lia Ascii String.
From stdpp Require Import base tactics option list strings gmap.

Local Open Scope Z_scope.

(* String concatenation unfolds on a literal first argument. *)
#[local] Arguments String.append !s1 s2 : simpl nomatch.

(** ** Characters and the [str] methods the program uses *)

Definition ord (c : ascii) : Z := Z.of_N (N_of_ascii c).
Definition chr (n : Z) : ascii := ascii_of_N (Z.to_N n).

(** [str.isspace] on one character, which is also what [str.strip],
    [str.split] and the regular expression class [\s] use. *)
Definition isspace (c : ascii) : bool :=
  let n := ord c in
  ((9 <=? n) && (n <=? 13)) || ((28 <=? n) && (n <=? 32))
  || (n =? 133) || (n =? 160).

Definition lower_char (c : ascii) : ascii :=
  let n := ord c in
  if ((65 <=? n) && (n <=? 90))
     || ((192 <=? n) && (n <=? 222) && negb (n =? 215))
  then chr (n + 32) else c.

(** [s.lower()] *)
Fixpoint lower (s : string) : string :=
  match s with
  | EmptyString => EmptyString
  | String c s' => String (lower_char c) (lower s')
  end.

Fixpoint lstrip (s : string) : string :=
  match s with
  | EmptyString => EmptyString
  | String c s' => if isspace c then lstrip s' else s
  end.

Fixpoint rstrip (s : string) : string :=
  match s with
  | EmptyString => EmptyString
  | String c s' =>
      match rstrip s' with
      | EmptyString => if isspace c then EmptyString else String c EmptyString
      | r => String c r
      end
  end.

(** [s.strip()] *)
Definition strip (s : string) : string := rstrip (lstrip s).

(** [s.replace(a, b)] for one-character [a] and [b]. *)
Fixpoint replace (a b : ascii) (s : string) : string :=
  match s with
  | EmptyString => EmptyString
  | String c s' => String (if Ascii.eqb c a then b else c) (replace a b s')
  end.

(** [s.split()]: the maximal runs of characters that are not white space. *)
Fixpoint split (s : string) : list string :=
  match s with
  | EmptyString => []
  | String c s' =>
      if isspace c then split s'
      else match s' with
           | EmptyString => [String c EmptyString]
           | String c' _ =>
               if isspace c' then String c EmptyString :: split s'
               else match split s' with
                    | t :: ts => String c t :: ts
                    | [] => [String c EmptyString]
                    end
           end
  end.

(** [s.split('#')[0]]: the text before the first ['#']. *)
Fixpoint before_hash (s : string) : string :=
  match s with
  | EmptyString => EmptyString
  | String c s' => if Ascii.eqb c "#" then EmptyString else String c (before_hash s')
  end.

(** Slices [s[:n]] and [s[n:]]. *)
Fixpoint str_take (n : nat) (s : string) : string :=
  match n, s with
  | S n', String c s' => String c (str_take n' s')
  | _, _ => EmptyString
  end.

Fixpoint str_drop (n : nat) (s : string) : string :=
  match n, s with
  | S n', String _ s' => str_drop n' s'
  | _, _ => s
  end.

(** ** [int(s, base)] and [format(n, spec)] *)

(** The digit table of the interpreter's integer parser: the value of a
    character as a digit, for any base up to 36. *)
Definition digit_value (c : ascii) : option Z :=
  let n := ord c in
  if (48 <=? n) && (n <=? 57) then Some (n - 48)
  else if (97 <=? n) && (n <=? 122) then Some (n - 87)
  else if (65 <=? n) && (n <=? 90) then Some (n - 55)
  else None.

Definition is_digit (base : Z) (c : ascii) : bool :=
  match digit_value c with
  | Some d => d <? base
  | None => false
  end.

(** White space as [int] sees it: the ASCII set, and of the characters from
    127 on those that [isspace] accepts. *)
Definition int_isspace (c : ascii) : bool :=
  let n := ord c in
  ((9 <=? n) && (n <=? 13)) || (n =? 32) || (n =? 133) || (n =? 160).

Fixpoint int_lstrip (s : string) : string :=
  match s with
  | EmptyString => EmptyString
  | String c s' => if int_isspace c then int_lstrip s' else s
  end.

Fixpoint all_int_space (s : string) : bool :=
  match s with
  | EmptyString => true
  | String c s' => int_isspace c && all_int_space s'
  end.

(** The run of digits and single underscores read by [int]: the value read
    so far and the text left, or [None] for a doubled or a trailing
    underscore. [us] tells that the previous character was an underscore. *)
Fixpoint int_digits (base : Z) (s : string) (us : bool) (acc : Z)
  : option (Z * string) :=
  match s with
  | EmptyString => if us then None else Some (acc, EmptyString)
  | String c s' =>
      if Ascii.eqb c "_" then
        if us then None else int_digits base s' true acc
      else if is_digit base c then
        int_digits base s' false (acc * base + default 0 (digit_value c))
      else if us then None else Some (acc, s)
  end.

(** The sign of the literal and the text after it. *)
Definition int_sign (s : string) : Z * string :=
  match s with
  | String c r =>
      if Ascii.eqb c "+" then (1, r)
      else if Ascii.eqb c "-" then (-1, r)
      else (1, s)
  | EmptyString => (1, s)
  end.

(** In base 2 a prefix [0b] or [0B] is skipped, with one underscore after
    it. *)
Definition int_prefix (base : Z) (s : string) : string :=
  match s with
  | String c0 (String c1 r) =>
      if (base =? 2) && Ascii.eqb c0 "0"
         && (Ascii.eqb c1 "b" || Ascii.eqb c1 "B")
      then match r with
           | String c2 r' => if Ascii.eqb c2 "_" then r' else r
           | EmptyString => r
           end
      else s
  | _ => s
  end.

(** [int(s, base)] for base 2 and base 10; [None] is the [ValueError] of an
    invalid literal. (The interpreter's limit on the number of digits of a
    literal is not modelled.) *)
Definition py_int (base : Z) (s : string) : option Z :=
  let (sign, s1) := int_sign (int_lstrip s) in
  match int_prefix base s1 with
  | EmptyString => None
  | String c _ as s2 =>
      if is_digit base c then
        match int_digits base s2 false 0 with
        | Some (v, rest) => if all_int_space rest then Some (sign * v) else None
        | None => None
        end
      else None
  end.

Definition digit_char (d : Z) : ascii :=
  if d <? 10 then chr (48 + d) else chr (87 + d).

(** The digits of [n >= 0] in a base, most significant first; [fuel] bounds
    the number of digits. *)
Fixpoint digits_of (base : Z) (fuel : nat) (n : Z) : string :=
  match fuel with
  | O => EmptyString
  | S f =>
      if n <? base then String (digit_char n) EmptyString
      else digits_of base f (n / base) +:+ String (digit_char (n mod base)) EmptyString
  end.

Fixpoint zeros (k : nat) : string :=
  match k with
  | O => EmptyString
  | S k' => String "0" (zeros k')
  end.

Definition zfill (width : nat) (s : string) : string :=
  zeros (width - String.length s) +:+ s.

(** [format(n, '0<width>b')] and [format(n, '0<width>x')]: zeros are filled in
    after the sign, and the sign counts in the width. *)
Definition format_int (base : Z) (width : nat) (n : Z) : string :=
  let a := Z.abs n in
  let ds := digits_of base (S (Z.to_nat (Z.log2 a))) a in
  if n <? 0 then String "-" (zfill (width - 1) ds) else zfill width ds.

(** ** The program: tables *)

Definition REGISTER_MAP : list (string * Z) :=
  [ ("$zero", 0); ("$0", 0);
    ("$at", 1); ("$1", 1);
    ("$v0", 2); ("$2", 2);
    ("$v1", 3); ("$3", 3);
    ("$a0", 4); ("$4", 4);
    ("$a1", 5); ("$5", 5);
    ("$a2", 6); ("$6", 6);
    ("$a3", 7); ("$7", 7);
    ("$t0", 8); ("$8", 8);
    ("$t1", 9); ("$9", 9);
    ("$t2", 10); ("$10", 10);
    ("$t3", 11); ("$11", 11);
    ("$t4", 12); ("$12", 12);
    ("$t5", 13); ("$13", 13);
    ("$t6", 14); ("$14", 14);
    ("$t7", 15); ("$15", 15);
    ("$s0", 16); ("$16", 16);
    ("$s1", 17); ("$17", 17);
    ("$s2", 18); ("$18", 18);
    ("$s3", 19); ("$19", 19);
    ("$s4", 20); ("$20", 20);
    ("$s5", 21); ("$21", 21);
    ("$s6", 22); ("$22", 22);
    ("$s7", 23); ("$23", 23);
    ("$t8", 24); ("$24", 24);
    ("$t9", 25); ("$25", 25);
    ("$k0", 26); ("$26", 26);
    ("$k1", 27); ("$27", 27);
    ("$gp", 28); ("$28", 28);
    ("$sp", 29); ("$29", 29);
    ("$fp", 30); ("$30", 30);
    ("$ra", 31); ("$31", 31) ]%string.

(** The entry of [INSTRUCTIONS] for a mnemonic: its type, with the [funct]
    of an R-type and the [opcode] of an I-type or a J-type. *)
Inductive info : Type :=
  | R (funct : Z)
  | I (opcode : Z)
  | J (opcode : Z).

Definition INSTRUCTIONS : list (string * info) :=
  [ ("add", R 0x20); ("sub", R 0x22); ("and", R 0x24); ("or", R 0x25);
    ("slt", R 0x2a); ("sll", R 0x00);
    ("addi", I 0x08); ("lw", I 0x23); ("sw", I 0x2b);
    ("beq", I 0x04); ("bne", I 0x05);
    ("j", J 0x02) ]%string.

(** Lookup in a table written as a dictionary literal (the keys of both
    tables are distinct). *)
Fixpoint dict_get {A : Type} (d : list (string * A)) (k : string) : option A :=
  match d with
  | [] => None
  | (k', v) :: d' => if String.eqb k k' then Some v else dict_get d' k
  end.

(** ** The program: errors *)

(** One constructor per kind of [ValueError] the program raises, under the
    name the specification gives it, with what its message shows.
    [ShiftAmountOutOfRange] is the error of line 103, which the [except] of
    line 104 always replaces; [InvalidLiteral] is the [ValueError] of [int]
    itself and [LineError] the wrapper of [second_pass]. *)
Inductive error : Type :=
  | UnknownRegister (reg_str : string)
  | UnsupportedInstruction (part : string)
  | OperandCountMismatch (mnemonic : string)
  | ShiftAmountOutOfRange (mnemonic : string)
  | InvalidShiftAmount (mnemonic : string)
  | InvalidImmediate (mnemonic : string)
  | InvalidLabelOrImmediate (mnemonic label : string)
  | BranchOffsetOutOfRange (mnemonic : string) (immediate : Z)
  | InvalidLabelOrAddress (mnemonic label : string)
  | UnalignedJumpTarget (target_address : Z)
  | DuplicateLabel (label : string)
  | InvalidLiteral (base : Z) (s : string)
  | LineError (line : string) (e : error).

Inductive result (A : Type) : Type :=
  | OK (a : A)
  | Error (e : error).
Arguments OK {A} a.
Arguments Error {A} e.

Definition bind {A B : Type} (r : result A) (k : A -> result B) : result B :=
  match r with
  | OK a => k a
  | Error e => Error e
  end.

(** [try: r  except ValueError as e: h e] *)
Definition try_except {A : Type} (r : result A) (h : error -> result A) : result A :=
  match r with
  | OK a => OK a
  | Error e => h e
  end.

Notation "'let*' x ':=' r 'in' k" := (bind r (fun x => k))
  (at level 10, x pattern, r at level 100, k at level 200).

(** [int(s)] as a computation that may raise. *)
Definition int10 (s : string) : result Z :=
  match py_int 10 s with
  | Some n => OK n
  | None => Error (InvalidLiteral 10 s)
  end.

(** ** The program: the encoder *)

(** [bits] is a natural number: every call passes one of the literals 5, 6,
    16 and 26. *)
Definition to_binary (n : Z) (bits : nat) : string :=
  let n := if n <? 0 then Z.shiftl 1 (Z.of_nat bits) + n else n in
  format_int 2 bits n.

Definition parse_register (reg_str : string) : result Z :=
  match dict_get REGISTER_MAP reg_str with
  | None => Error (UnknownRegister reg_str)
  | Some r => OK r
  end.

(** Lines 76 to 78 of [assemble]: the line split into its parts. *)
Definition parts_of (line : string) : list string :=
  let line := strip line in
  let line := replace ")" " " (replace "(" " " (replace "," " " line)) in
  split line.

(** Lines 175 and 176 of [assemble]: the binary text read back as a number
    and shown in hexadecimal. *)
Definition hex_of (v : Z) : string :=
  let hex_code := format_int 16 8 v in
  "0x" +:+ str_take 4 hex_code +:+ "_" +:+ str_drop 4 hex_code.

Definition render (binary_code : string) : result string :=
  match py_int 2 binary_code with
  | None => Error (InvalidLiteral 2 binary_code)
  | Some v => OK (hex_of v)
  end.

(** The R-type branch of [assemble] (lines 93 to 112). *)
Definition assemble_R (mnemonic : string) (funct : Z) (operands : list string)
  : result string :=
  match operands with
  | [o0; o1; o2] =>
      if String.eqb mnemonic "sll" then
        let* rd := parse_register o0 in
        let* rt := parse_register o1 in
        let* shamt :=
          try_except
            (let* shamt := int10 o2 in
             if negb ((0 <=? shamt) && (shamt <? 32))
             then Error (ShiftAmountOutOfRange mnemonic)
             else OK shamt)
            (fun _ => Error (InvalidShiftAmount mnemonic)) in
        let rs := 0 in
        OK ("000000" +:+ to_binary rs 5 +:+ to_binary rt 5 +:+ to_binary rd 5
            +:+ to_binary shamt 5 +:+ to_binary funct 6)
      else
        let* rd := parse_register o0 in
        let* rs := parse_register o1 in
        let* rt := parse_register o2 in
        let shamt := 0 in
        OK ("000000" +:+ to_binary rs 5 +:+ to_binary rt 5 +:+ to_binary rd 5
            +:+ to_binary shamt 5 +:+ to_binary funct 6)
  | _ => Error (OperandCountMismatch mnemonic)
  end.

(** The I-type branch of [assemble] (lines 114 to 155). *)
Definition assemble_I (mnemonic : string) (opcode : Z) (operands : list string)
    (symbol_table : gmap string Z) (current_address : Z) : result string :=
  let opcode := to_binary opcode 6 in
  if String.eqb mnemonic "lw" || String.eqb mnemonic "sw" then
    match operands with
    | [rt; immediate_str; rs_str] =>
        let* rt := parse_register rt in
        let* rs := parse_register rs_str in
        let* immediate :=
          try_except (int10 immediate_str)
            (fun _ => Error (InvalidImmediate mnemonic)) in
        OK (opcode +:+ to_binary rs 5 +:+ to_binary rt 5 +:+ to_binary immediate 16)
    | _ => Error (OperandCountMismatch mnemonic)
    end
  else if String.eqb mnemonic "beq" || String.eqb mnemonic "bne" then
    match operands with
    | [o0; o1; label] =>
        let* rs := parse_register o0 in
        let* rt := parse_register o1 in
        let* immediate :=
          try_except
            (match symbol_table !! label with
             | Some target_address =>
                 let offset := target_address - (current_address + 4) in
                 OK (Z.shiftr offset 2)
             | None => int10 label
             end)
            (fun _ => Error (InvalidLabelOrImmediate mnemonic label)) in
        if negb ((-32768 <=? immediate) && (immediate <=? 32767))
        then Error (BranchOffsetOutOfRange mnemonic immediate)
        else OK (opcode +:+ to_binary rs 5 +:+ to_binary rt 5
                 +:+ to_binary immediate 16)
    | _ => Error (OperandCountMismatch mnemonic)
    end
  else
    match operands with
    | [o0; o1; o2] =>
        let* rt := parse_register o0 in
        let* rs := parse_register o1 in
        let* immediate :=
          try_except (int10 o2) (fun _ => Error (InvalidImmediate mnemonic)) in
        OK (opcode +:+ to_binary rs 5 +:+ to_binary rt 5 +:+ to_binary immediate 16)
    | _ => Error (OperandCountMismatch mnemonic)
    end.

(** The J-type branch of [assemble] (lines 157 to 173). *)
Definition assemble_J (mnemonic : string) (opcode : Z) (operands : list string)
    (symbol_table : gmap string Z) : result string :=
  match operands with
  | [label] =>
      let* target_address :=
        try_except
          (match symbol_table !! label with
           | Some target_address => OK target_address
           | None => int10 label
           end)
          (fun _ => Error (InvalidLabelOrAddress mnemonic label)) in
      if negb (target_address mod 4 =? 0)
      then Error (UnalignedJumpTarget target_address)
      else
        let jump_target := Z.shiftr target_address 2 in
        OK (to_binary opcode 6 +:+ to_binary jump_target 26)
  | _ => Error (OperandCountMismatch mnemonic)
  end.

Definition assemble (line : string) (symbol_table : gmap string Z)
    (current_address : Z) : result string :=
  match parts_of line with
  | [] => OK EmptyString
  | part0 :: operands =>
      let mnemonic := lower part0 in
      match dict_get INSTRUCTIONS mnemonic with
      | None => Error (UnsupportedInstruction part0)
      | Some info =>
          let* binary_code :=
            match info with
            | R funct => assemble_R mnemonic funct operands
            | I opcode =>
                assemble_I mnemonic opcode operands symbol_table current_address
            | J opcode => assemble_J mnemonic opcode operands symbol_table
            end in
          render binary_code
      end
  end.

(** ** The program: the two passes *)

Definition is_label_char (c : ascii) : bool :=
  let n := ord c in
  ((97 <=? n) && (n <=? 122)) || ((65 <=? n) && (n <=? 90))
  || ((48 <=? n) && (n <=? 57)) || (n =? 95).

(** The longest prefix of label characters, and the text after it. *)
Fixpoint label_chars (s : string) : string * string :=
  match s with
  | EmptyString => (EmptyString, EmptyString)
  | String c s' =>
      if is_label_char c
      then let (l, r) := label_chars s' in (String c l, r)
      else (EmptyString, s)
  end.

(** What [.] matches greedily: the text before the first line feed. *)
Fixpoint until_newline (s : string) : string :=
  match s with
  | EmptyString => EmptyString
  | String c s' =>
      if Ascii.eqb c (chr 10) then EmptyString else String c (until_newline s')
  end.

(** [re.match] of a line against the pattern of both passes: white space, a
    group of one or more characters of [a-zA-Z0-9_], a colon, white space,
    and a group of as many characters other than a line feed as there are.
    The result is groups 1 and 2 of the match, if there is one. No white
    space is a label character and no label character is a colon, so the
    greedy match of each part is the only one that can be completed:
    backtracking finds nothing more. *)
Definition label_match (line : string) : option (string * string) :=
  let (label, rest) := label_chars (lstrip line) in
  match label, rest with
  | String _ _, String c rest' =>
      if Ascii.eqb c ":" then Some (label, until_newline (lstrip rest'))
      else None
  | _, _ => None
  end.

Definition is_empty (s : string) : bool :=
  match s with
  | EmptyString => true
  | String _ _ => false
  end.

(** The state of the loop of [first_pass]. *)
Record fp_state : Type := {
  fp_symbol_table : gmap string Z;
  fp_address : Z
}.

(** One turn of the loop of [first_pass]. *)
Definition first_pass_step (s : fp_state) (line : string) : result fp_state :=
  let line := strip (before_hash line) in
  if is_empty line then OK s
  else
    match label_match line with
    | Some (label, group2) =>
        let instruction_part := strip group2 in
        match fp_symbol_table s !! label with
        | Some _ => Error (DuplicateLabel label)
        | None =>
            let symbol_table := <[label := fp_address s]> (fp_symbol_table s) in
            OK {| fp_symbol_table := symbol_table;
                  fp_address := if is_empty instruction_part then fp_address s
                                else fp_address s + 4 |}
        end
    | None =>
        OK {| fp_symbol_table := fp_symbol_table s;
              fp_address := fp_address s + 4 |}
    end.

(** A [for] loop over the lines that stops at the first exception. *)
Fixpoint for_lines {S : Type} (step : S -> string -> result S) (s : S)
    (lines : list string) : result S :=
  match lines with
  | [] => OK s
  | line :: lines' => let* s' := step s line in for_lines step s' lines'
  end.

Definition fp_init : fp_state := {| fp_symbol_table := ∅; fp_address := 0 |}.

(** The loop of [first_pass], with the state it ends in. *)
Definition first_pass_loop (lines : list string) : result fp_state :=
  for_lines first_pass_step fp_init lines.

Definition first_pass (lines : list string) : result (gmap string Z) :=
  let* s := first_pass_loop lines in
  OK (fp_symbol_table s).

(** The state of the loop of [second_pass]; [None] is Python's [None]. *)
Record sp_state : Type := {
  sp_machine_codes : list (string * option string);
  sp_address : Z
}.

(** One turn of the loop of [second_pass]. *)
Definition second_pass_step (symbol_table : gmap string Z) (s : sp_state)
    (original_line : string) : result sp_state :=
  let line := strip (before_hash original_line) in
  if is_empty line then OK s
  else
    let instruction_part :=
      match label_match line with
      | Some (_, group2) => strip group2
      | None => line
      end in
    if is_empty instruction_part then
      OK {| sp_machine_codes := sp_machine_codes s ++ [(original_line, None)];
            sp_address := sp_address s |}
    else
      let* code :=
        try_except (assemble instruction_part symbol_table (sp_address s))
          (fun e => Error (LineError (strip original_line) e)) in
      OK {| sp_machine_codes := sp_machine_codes s ++ [(original_line, Some code)];
            sp_address := sp_address s + 4 |}.

Definition sp_init : sp_state := {| sp_machine_codes := []; sp_address := 0 |}.

(** The loop of [second_pass], with the state it ends in. *)
Definition second_pass_loop (lines : list string)
    (symbol_table : gmap string Z) : result sp_state :=
  for_lines (second_pass_step symbol_table) sp_init lines.

Definition second_pass (lines : list string) (symbol_table : gmap string Z)
  : result (list (string * option string)) :=
  let* s := second_pass_loop lines symbol_table in
  OK (sp_machine_codes s).

(** [main] without its printing: the two passes in sequence. *)
Definition assemble_program (lines : list string)
  : result (list (string * option string)) :=
  let* symbol_table := first_pass lines in
  second_pass lines symbol_table.

(** ** Vocabulary for the lines of a program *)

(** The line as both passes see it: without its comment, trimmed. *)
Definition stripped (line : string) : string := strip (before_hash line).

(** The text both passes take for the instruction of a line. *)
Definition instruction_of (line : string) : string :=
  match label_match (stripped line) with
  | Some (_, group2) => strip group2
  | None => stripped line
  end.

(** The label a line defines, if any. *)
Definition label_of (line : string) : option string :=
  match label_match (stripped line) with
  | Some (label, _) => Some label
  | None => None
  end.

(** A blank line has nothing but white space and a comment; a line carries
    an instruction when some text is left after its label; a line with a
    label alone is not blank and carries none. *)
Definition blank (line : string) : bool := is_empty (stripped line).
Definition instruction_bearing (line : string) : bool :=
  negb (is_empty (instruction_of line)).
Definition label_only (line : string) : bool :=
  negb (blank line) && is_empty (instruction_of line).

(** The line feed that ends a line read from the input. *)
Definition nl : string := String (chr 10) EmptyString.

(** * Vocabulary of the properties *)

(** ** Numbers written in a fixed number of digits *)

(** The [k] low digits of [n] in a base, most significant first. *)
Fixpoint fixed_digits (base : Z) (k : nat) (n : Z) : string :=
  match k with
  | O => EmptyString
  | S k' =>
      fixed_digits base k' (n / base)
      +:+ String (digit_char (n mod base)) EmptyString
  end.

(** A binary digit. *)
Definition is_bin (c : ascii) : Prop := c = "0"%char \/ c = "1"%char.

(** The word of an R-type, of an I-type and of a J-type instruction, fields
    from the most significant down. *)
Definition word_R (rs rt rd shamt funct : Z) : Z :=
  rs * 2 ^ 21 + rt * 2 ^ 16 + rd * 2 ^ 11 + shamt * 2 ^ 6 + funct.

Definition word_I (opcode rs rt immediate : Z) : Z :=
  opcode * 2 ^ 26 + rs * 2 ^ 21 + rt * 2 ^ 16 + immediate mod 2 ^ 16.

Definition word_J (opcode target_address : Z) : Z :=
  opcode * 2 ^ 26 + Z.shiftr target_address 2 mod 2 ^ 26.

(** The opcode the table gives to an I-type or J-type mnemonic. *)
Definition opcode_of (mnemonic : string) : Z :=
  match dict_get INSTRUCTIONS mnemonic with
  | Some (I opcode) | Some (J opcode) => opcode
  | _ => 0
  end.

(** The range of a signed 16-bit quantity. *)
Definition in_int16 (immediate : Z) : Prop := -32768 <= immediate <= 32767.

(** What [assemble] does with a branch once its immediate is known (lines
    143 to 145, rendered), and with a jump once its target is known (lines
    169 to 173, rendered). *)
Definition encode_branch (mnemonic : string) (rs rt immediate : Z)
  : result string :=
  if negb ((-32768 <=? immediate) && (immediate <=? 32767))
  then Error (BranchOffsetOutOfRange mnemonic immediate)
  else OK (hex_of (word_I (opcode_of mnemonic) rs rt immediate)).

Definition encode_jump (target_address : Z) : result string :=
  if negb (target_address mod 4 =? 0)
  then Error (UnalignedJumpTarget target_address)
  else render (to_binary 2 6 +:+ to_binary (Z.shiftr target_address 2) 26).

(** ** The shape of a rendered word *)

Definition is_hex_char (c : ascii) : bool :=
  let n := ord c in
  ((48 <=? n) && (n <=? 57)) || ((97 <=? n) && (n <=? 102)).

(** [0xHHHH_HHHH]: two groups of four hexadecimal digits. *)
Definition word_text (code : string) : bool :=
  match code with
  | String "0" (String "x" (String h1 (String h2 (String h3 (String h4
      (String "_" (String h5 (String h6 (String h7 (String h8
         EmptyString)))))))))) =>
      forallb is_hex_char [h1; h2; h3; h4; h5; h6; h7; h8]
  | _ => false
  end.

(** The labels the lines of a program define, in order. *)
Definition defined_labels (lines : list string) : list string :=
  omap label_of lines.

(** The number of lines of a program that carry an instruction. *)
Fixpoint instruction_count (lines : list string) : Z :=
  match lines with
  | [] => 0
  | line :: lines' =>
      (if instruction_bearing line then 1 else 0) + instruction_count lines'
  end.

(** The lines that are not blank, in order. *)
Definition nonblank_lines (lines : list string) : list string :=
  List.filter (fun line => negb (blank line)) lines.

(** What the second pass records for a line that is not blank: the line
    itself with [None] when it holds only a label, and otherwise with the
    text the encoder returns for its instruction at some address, which is
    empty or the rendering of a number that is not negative. *)
Definition line_result (symbol_table : gmap string Z) (line : string)
    (r : string * option string) : Prop :=
  r.1 = line
  /\ match r.2 with
     | None => label_only line = true
     | Some code =>
         instruction_bearing line = true
         /\ (exists address,
               assemble (instruction_of line) symbol_table address = OK code)
         /\ (code = EmptyString \/ exists v, 0 <= v /\ code = hex_of v)
     end.

(** A text that starts with two binary digits. *)
Definition two_bits (s : string) : Prop :=
  exists c0 c1 r, is_bin c0 /\ is_bin c1 /\ s = String c0 (String c1 r).

(** Case analysis on every [match] and [if] of the goal. *)
Ltac branch_cases :=
  repeat match goal with
    | |- context [match ?x with _ => _ end] =>
        destruct x eqn:?; try discriminate
    | |- context [if ?x then _ else _] =>
        destruct x eqn:?; try discriminate
    end.


(** ** The program: [main] *)

(** What [main] writes: its fixed texts (lines 230, 231, 234 and 240), a line
    of machine code (line 243) and the message of an error (line 246). *)
Inductive message : Type :=
  | Banner
  | Prompt
  | InputAccepted
  | OutputHeader
  | CodeLine (text : string)
  | ErrorMessage (e : error).

Inductive output : Type :=
  | Stdout (m : message)
  | Stderr (m : message).

Definition tab : string := String (chr 9) EmptyString.

(** The loop of lines 241 to 243: a line is printed for each entry whose code
    is true in Python's sense, that is neither [None] nor empty. *)
Fixpoint print_codes (machine_codes : list (string * option string))
  : list output :=
  match machine_codes with
  | [] => []
  | (original_line, code) :: rest =>
      match code with
      | Some (String _ _ as code) =>
          Stdout (CodeLine (code +:+ tab +:+ "# " +:+ strip original_line))
          :: print_codes rest
      | _ => print_codes rest
      end
  end.

(** [main] on the lines read from the standard input. Every exception of the
    two passes is a [ValueError], so the second handler is never entered. *)
Definition main (lines : list string) : list output :=
  [Stdout Banner; Stdout Prompt; Stdout InputAccepted]
  ++ match assemble_program lines with
     | OK machine_codes => Stdout OutputHeader :: print_codes machine_codes
     | Error e => [Stderr (ErrorMessage e)]
     end.

(** ** More vocabulary *)

(** A property of every character of a text. *)
Fixpoint all_chars (P : ascii -> bool) (s : string) : bool :=
  match s with
  | EmptyString => true
  | String c s' => P c && all_chars P s'
  end.

(** The characters between the parts of an instruction: white space, and
    the comma and the parentheses that [assemble] replaces with spaces. *)
Definition is_separator (c : ascii) : bool :=
  isspace c || Ascii.eqb c "," || Ascii.eqb c "(" || Ascii.eqb c ")".

(** The number of operands [assemble] asks of an instruction. *)
Definition operand_count (i : info) : nat :=
  match i with
  | J _ => 1
  | _ => 3
  end.

(** The codes of a run of the second pass, without the texts of the lines. *)
Definition codes_only (r : result (list (string * option string)))
  : option (list (option string)) :=
  match r with
  | OK machine_codes => Some (map snd machine_codes)
  | Error _ => None
  end.

(** The lines for which [main] prints machine code: those whose instruction
    has at least one part. *)
Definition has_parts (line : string) : bool :=
  match parts_of (instruction_of line) with
  | [] => false
  | _ :: _ => true
  end.

Definition printed_lines (lines : list string) : list string :=
  List.filter has_parts lines.

(** The line [main] prints for a line of the program: its code at some
    address, a tab, the comment mark and the line trimmed. *)
Definition printed_for (symbol_table : gmap string Z) (line : string)
    (o : output) : Prop :=
  exists address code,
    assemble (instruction_of line) symbol_table address = OK code
    /\ code <> EmptyString
    /\ o = Stdout (CodeLine (code +:+ tab +:+ "# " +:+ strip line)).

(** * Properties *)

(** ** The encoder on examples *)

Example split_lw :
  split (replace ")" " " (replace "(" " " (replace "," " " "lw $t1, 0($t2)")))
  = ["lw"; "$t1"; "0"; "$t2"]%string.
Proof. reflexivity. Qed.

Example strip_ex : strip (String (chr 31) " a b " +:+ nl) = "a b"%string.
Proof. reflexivity. Qed.

Example assemble_add :
  assemble "add $t0, $s0, $s1" ∅ 0 = OK "0x0211_4020"%string.
Proof. vm_compute. reflexivity. Qed.

Example assemble_addi :
  assemble "addi $t1, $zero, 5" ∅ 0 = OK "0x2009_0005"%string.
Proof. vm_compute. reflexivity. Qed.

Example program_ex :
  assemble_program
    [ "start: addi $t0, $zero, 3  # counter" +:+ nl;
      nl;
      "loop:" +:+ nl;
      "  addi $t0, $t0, -1" +:+ nl;
      "  bne $t0, $zero, loop" +:+ nl;
      "  j start" +:+ nl ]%string
  = OK [ ("start: addi $t0, $zero, 3  # counter" +:+ nl, Some "0x2008_0003");
         ("loop:" +:+ nl, None);
         ("  addi $t0, $t0, -1" +:+ nl, Some "0x2108_ffff");
         ("  bne $t0, $zero, loop" +:+ nl, Some "0x1500_fffe");
         ("  j start" +:+ nl, Some "0x0800_0000") ]%string.
Proof. vm_compute. reflexivity. Qed.


(** ** Strings *)

Lemma append_assoc (a b c : string) : (a +:+ b) +:+ c = a +:+ (b +:+ c).
Proof. induction a as [|x a IH]; simpl; [reflexivity | now rewrite IH]. Qed.

Lemma append_nil_r (a : string) : a +:+ EmptyString = a.
Proof. induction a as [|x a IH]; simpl; [reflexivity | now rewrite IH]. Qed.

Lemma length_append (a b : string) :
  String.length (a +:+ b) = (String.length a + String.length b)%nat.
Proof. induction a as [|x a IH]; simpl; [reflexivity | now rewrite IH]. Qed.

Lemma zeros_snoc (k : nat) :
  zeros k +:+ String "0" EmptyString = String "0" (zeros k).
Proof. induction k as [|k IH]; simpl; [reflexivity | now rewrite IH]. Qed.

(** ** Numbers written in a fixed number of digits *)

Lemma length_fixed_digits base k n : String.length (fixed_digits base k n) = k.
Proof.
  revert n; induction k as [|k IH]; intros n; simpl; [reflexivity|].
  rewrite length_append, IH. simpl. lia.
Qed.

Lemma fixed_digits_zero base k : 1 < base -> fixed_digits base k 0 = zeros k.
Proof.
  intros Hb. induction k as [|k IH]; simpl; [reflexivity|].
  rewrite Z.div_0_l, Z.mod_0_l, IH by lia. apply zeros_snoc.
Qed.

(** Two fields side by side are one field. *)
Lemma fixed_digits_app base k1 k2 a b :
  1 < base -> 0 <= b < base ^ Z.of_nat k2 ->
  fixed_digits base k1 a +:+ fixed_digits base k2 b
  = fixed_digits base (k1 + k2) (a * base ^ Z.of_nat k2 + b).
Proof.
  intros Hb. revert b. induction k2 as [|k2 IH]; intros b Hr.
  - simpl in Hr. replace b with 0 by lia.
    rewrite Nat.add_0_r, append_nil_r. f_equal. simpl. lia.
  - rewrite Nat2Z.inj_succ, Z.pow_succ_r in * by lia.
    replace (k1 + S k2)%nat with (S (k1 + k2)) by lia. simpl.
    rewrite <- append_assoc, IH.
    + f_equal; [f_equal | do 2 f_equal].
      * replace (a * (base * base ^ Z.of_nat k2) + b)
          with (b + (a * base ^ Z.of_nat k2) * base) by ring.
        rewrite Z.div_add by lia. ring.
      * replace (a * (base * base ^ Z.of_nat k2) + b)
          with (b + (a * base ^ Z.of_nat k2) * base) by ring.
        now rewrite Z.mod_add by lia.
    + split; [apply Z.div_pos; lia|].
      apply Z.div_lt_upper_bound; lia.
Qed.

Lemma zfill_snoc k s c :
  zfill (S k) (s +:+ String c EmptyString) = zfill k s +:+ String c EmptyString.
Proof.
  unfold zfill. rewrite length_append, append_assoc. simpl.
  now replace (S k - (String.length s + 1))%nat with (k - String.length s)%nat by lia.
Qed.

(** With enough fuel, padding the digits of [n] with zeros gives its fixed
    form. *)
Lemma zfill_digits_of base fuel : 1 < base ->
  forall k n, (1 <= k)%nat -> 0 <= n < base ^ Z.of_nat k ->
    n < 2 ^ Z.of_nat fuel ->
    zfill k (digits_of base fuel n) = fixed_digits base k n.
Proof.
  intros Hb. induction fuel as [|fuel IH]; intros k n Hk Hn Hf.
  - simpl in Hf. destruct k as [|k]; [lia|].
    replace n with 0 by lia. rewrite fixed_digits_zero by lia.
    unfold zfill. simpl. now rewrite append_nil_r.
  - destruct k as [|k]; [lia|]. simpl.
    destruct (Z.ltb_spec n base) as [Hlt|Hge].
    + rewrite Z.div_small, Z.mod_small, fixed_digits_zero by lia.
      unfold zfill. simpl. now rewrite Nat.sub_0_r.
    + rewrite zfill_snoc. f_equal.
      rewrite Nat2Z.inj_succ, Z.pow_succ_r in Hn, Hf by lia.
      assert (0 < n / base) by (apply Z.div_str_pos; lia).
      assert (n / base < base ^ Z.of_nat k) by (apply Z.div_lt_upper_bound; lia).
      assert (n / base < 2 ^ Z.of_nat fuel).
      { apply Z.div_lt_upper_bound; [lia|].
        assert (0 < 2 ^ Z.of_nat fuel) by (apply Z.pow_pos_nonneg; lia). nia. }
      destruct k as [|k]; [simpl in *; lia|].
      apply IH; lia.
Qed.

Lemma format_int_fixed base k n :
  1 < base -> (1 <= k)%nat -> 0 <= n < base ^ Z.of_nat k ->
  format_int base k n = fixed_digits base k n.
Proof.
  intros Hb Hk Hn. unfold format_int.
  destruct (Z.ltb_spec n 0); [lia|].
  rewrite Z.abs_eq by lia. apply zfill_digits_of; try lia.
  rewrite Nat2Z.inj_succ, Z2Nat.id by apply Z.log2_nonneg.
  destruct (Z.eq_dec n 0) as [->|]; [reflexivity|].
  apply Z.log2_spec. lia.
Qed.

(** [to_binary] on the values that fit: exactly [bits] digits, those of
    [n mod 2 ^ bits]. *)
Lemma to_binary_fixed n bits :
  (1 <= bits)%nat -> - 2 ^ Z.of_nat bits <= n < 2 ^ Z.of_nat bits ->
  to_binary n bits = fixed_digits 2 bits (n mod 2 ^ Z.of_nat bits).
Proof.
  intros Hk Hn. unfold to_binary.
  assert (0 < 2 ^ Z.of_nat bits) by (apply Z.pow_pos_nonneg; lia).
  rewrite Z.shiftl_1_l.
  destruct (Z.ltb_spec n 0).
  - rewrite format_int_fixed by lia. f_equal.
    apply Z.mod_unique with (q := -1); lia.
  - rewrite format_int_fixed by lia. f_equal.
    symmetry. apply Z.mod_small. lia.
Qed.

(** ** Reading binary text back *)

Lemma digit_char_mod2 x :
  (x mod 2 = 0 /\ digit_char (x mod 2) = "0"%char)
  \/ (x mod 2 = 1 /\ digit_char (x mod 2) = "1"%char).
Proof.
  assert (H : 0 <= x mod 2 < 2) by (apply Z.mod_pos_bound; lia).
  assert (E : x mod 2 = 0 \/ x mod 2 = 1) by lia.
  destruct E as [E|E]; rewrite E; [left|right]; split; reflexivity.
Qed.

Lemma int_digits_bit (b : bool) s us acc :
  int_digits 2 (String (if b then "1" else "0")%char s) us acc
  = int_digits 2 s false (acc * 2 + (if b then 1 else 0)).
Proof. destruct b; reflexivity. Qed.

Lemma int_digits_fixed k : forall n rest acc,
  int_digits 2 (fixed_digits 2 k n +:+ rest) false acc
  = int_digits 2 rest false (acc * 2 ^ Z.of_nat k + n mod 2 ^ Z.of_nat k).
Proof.
  induction k as [|k IH]; intros n rest acc.
  - simpl. rewrite Z.mod_1_r. f_equal. lia.
  - cbn [fixed_digits]. rewrite append_assoc, IH.
    rewrite Nat2Z.inj_succ, Z.pow_succ_r by lia.
    assert (Hp : 0 < 2 ^ Z.of_nat k) by (apply Z.pow_pos_nonneg; lia).
    rewrite (Z.rem_mul_r n 2 (2 ^ Z.of_nat k)) by lia.
    change (String (digit_char (n mod 2)) "" +:+ rest)
      with (String (digit_char (n mod 2)) rest).
    destruct (digit_char_mod2 n) as [[E ->]|[E ->]]; rewrite E;
      [rewrite (int_digits_bit false) | rewrite (int_digits_bit true)]; f_equal; lia.
Qed.

Lemma py_int2_digits c0 c1 r :
  is_bin c0 -> is_bin c1 ->
  py_int 2 (String c0 (String c1 r))
  = match int_digits 2 (String c0 (String c1 r)) false 0 with
    | Some (v, rest) => if all_int_space rest then Some v else None
    | None => None
    end.
Proof.
  intros [->| ->] [->| ->]; unfold py_int; simpl;
    destruct (int_digits 2 r false _) as [[v rest]|]; try reflexivity;
    destruct (all_int_space rest); try reflexivity; f_equal; lia.
Qed.

Lemma py_int2_fixed k n :
  (2 <= k)%nat -> py_int 2 (fixed_digits 2 k n) = Some (n mod 2 ^ Z.of_nat k).
Proof.
  intros Hk.
  assert (E : exists c0 c1 r, is_bin c0 /\ is_bin c1
                /\ fixed_digits 2 k n = String c0 (String c1 r)).
  { destruct k as [|[|k]]; try lia.
    replace (S (S k)) with (2 + k)%nat by lia.
    assert (Hp : 0 < 2 ^ Z.of_nat k) by (apply Z.pow_pos_nonneg; lia).
    rewrite (Z.div_mod n (2 ^ Z.of_nat k)) by lia.
    rewrite (Z.mul_comm (2 ^ Z.of_nat k)).
    rewrite <- fixed_digits_app by (try apply Z.mod_pos_bound; lia).
    cbn [fixed_digits]. simpl String.append.
    eexists _, _, _. split; [|split; [|reflexivity]].
    - destruct (digit_char_mod2 (n / 2 ^ Z.of_nat k / 2)) as [[_ ->]|[_ ->]]; [left|right]; reflexivity.
    - destruct (digit_char_mod2 (n / 2 ^ Z.of_nat k)) as [[_ ->]|[_ ->]]; [left|right]; reflexivity. }
  destruct E as (c0 & c1 & r & H0 & H1 & E).
  rewrite E, py_int2_digits, <- E by assumption.
  rewrite <- (append_nil_r (fixed_digits 2 k n)), int_digits_fixed.
  simpl. f_equal.
Qed.


(** ** Fields and words *)

Lemma dict_get_forallb {A : Type} (P : A -> bool) (d : list (string * A)) k v :
  forallb (fun kv => P (snd kv)) d = true -> dict_get d k = Some v -> P v = true.
Proof.
  induction d as [|[k' v'] d IH]; simpl; [discriminate|].
  intros [Hv Hd]%andb_true_iff. destruct (String.eqb k k'); [|now apply IH].
  now intros [= <-].
Qed.

Lemma parse_register_range reg_str r :
  parse_register reg_str = OK r -> 0 <= r < 32.
Proof.
  unfold parse_register.
  destruct (dict_get REGISTER_MAP reg_str) as [v|] eqn:E; [|discriminate].
  intros [= <-].
  apply (dict_get_forallb (fun v => (0 <=? v) && (v <? 32))) in E;
    [lia | reflexivity].
Qed.

Lemma to_binary_field n bits :
  (1 <= bits)%nat -> 0 <= n < 2 ^ Z.of_nat bits ->
  to_binary n bits = fixed_digits 2 bits n.
Proof.
  intros Hk Hn. rewrite to_binary_fixed by lia. now rewrite Z.mod_small.
Qed.

Lemma render_fixed w :
  0 <= w < 2 ^ 32 -> render (fixed_digits 2 32 w) = OK (hex_of w).
Proof.
  intros Hw. unfold render. rewrite py_int2_fixed by lia.
  change (2 ^ Z.of_nat 32) with (2 ^ 32). now rewrite Z.mod_small.
Qed.

Lemma fields_I a b c d :
  0 <= a < 64 -> 0 <= b < 32 -> 0 <= c < 32 -> 0 <= d < 65536 ->
  fixed_digits 2 6 a +:+ fixed_digits 2 5 b +:+ fixed_digits 2 5 c
    +:+ fixed_digits 2 16 d
  = fixed_digits 2 32 (a * 2 ^ 26 + b * 2 ^ 21 + c * 2 ^ 16 + d).
Proof.
  intros Ha Hb Hc Hd.
  rewrite (fixed_digits_app 2 5 16) by (simpl; lia).
  rewrite (fixed_digits_app 2 5 (5 + 16)) by (simpl; lia).
  rewrite (fixed_digits_app 2 6 (5 + (5 + 16))) by (simpl; lia).
  f_equal. simpl. lia.
Qed.

Lemma fields_R b c d e f :
  0 <= b < 32 -> 0 <= c < 32 -> 0 <= d < 32 -> 0 <= e < 32 -> 0 <= f < 64 ->
  "000000" +:+ fixed_digits 2 5 b +:+ fixed_digits 2 5 c +:+ fixed_digits 2 5 d
    +:+ fixed_digits 2 5 e +:+ fixed_digits 2 6 f
  = fixed_digits 2 32 (word_R b c d e f).
Proof.
  intros Hb Hc Hd He Hf.
  change "000000" with (fixed_digits 2 6 0).
  rewrite (fixed_digits_app 2 5 6) by (simpl; lia).
  rewrite (fixed_digits_app 2 5 (5 + 6)) by (simpl; lia).
  rewrite (fixed_digits_app 2 5 (5 + (5 + 6))) by (simpl; lia).
  rewrite (fixed_digits_app 2 5 (5 + (5 + (5 + 6)))) by (simpl; lia).
  rewrite (fixed_digits_app 2 6 (5 + (5 + (5 + (5 + 6))))) by (simpl; lia).
  f_equal. unfold word_R. simpl. lia.
Qed.

Lemma fields_J a t :
  0 <= a < 64 -> 0 <= t < 2 ^ 26 ->
  fixed_digits 2 6 a +:+ fixed_digits 2 26 t
  = fixed_digits 2 32 (a * 2 ^ 26 + t).
Proof.
  intros Ha Ht. now rewrite (fixed_digits_app 2 6 26) by (simpl; lia).
Qed.

Lemma word_I_range a b c i :
  0 <= a < 64 -> 0 <= b < 32 -> 0 <= c < 32 -> 0 <= word_I a b c i < 2 ^ 32.
Proof.
  intros Ha Hb Hc. unfold word_I.
  assert (0 <= i mod 2 ^ 16 < 2 ^ 16) by (apply Z.mod_pos_bound; lia). lia.
Qed.

(** The low 16 bits of an I-type word are its immediate field. *)
Lemma word_I_immediate a b c i :
  word_I a b c i mod 2 ^ 16 = i mod 2 ^ 16.
Proof.
  unfold word_I.
  replace (a * 2 ^ 26 + b * 2 ^ 21 + c * 2 ^ 16 + i mod 2 ^ 16)
    with (i mod 2 ^ 16 + (a * 2 ^ 10 + b * 2 ^ 5 + c) * 2 ^ 16) by lia.
  rewrite Z.mod_add by lia. apply Z.mod_mod. lia.
Qed.

(** The binary text of an I-type instruction whose immediate fits, rendered. *)
Lemma render_I opcode rs rt immediate :
  0 <= opcode < 64 -> 0 <= rs < 32 -> 0 <= rt < 32 ->
  - 65536 <= immediate < 65536 ->
  render (to_binary opcode 6 +:+ to_binary rs 5 +:+ to_binary rt 5
          +:+ to_binary immediate 16)
  = OK (hex_of (word_I opcode rs rt immediate)).
Proof.
  intros Ho Hs Ht Hi.
  rewrite !to_binary_field by (simpl; lia).
  rewrite (to_binary_fixed immediate 16) by (simpl; lia).
  change (2 ^ Z.of_nat 16) with (2 ^ 16).
  assert (0 <= immediate mod 2 ^ 16 < 2 ^ 16) by (apply Z.mod_pos_bound; lia).
  rewrite fields_I by lia.
  apply render_fixed. apply word_I_range; lia.
Qed.

Lemma render_R rs rt rd shamt funct :
  0 <= rs < 32 -> 0 <= rt < 32 -> 0 <= rd < 32 -> 0 <= shamt < 32 ->
  0 <= funct < 64 ->
  render ("000000" +:+ to_binary rs 5 +:+ to_binary rt 5 +:+ to_binary rd 5
          +:+ to_binary shamt 5 +:+ to_binary funct 6)
  = OK (hex_of (word_R rs rt rd shamt funct)).
Proof.
  intros. rewrite !to_binary_field by (simpl; lia).
  rewrite fields_R by lia. apply render_fixed. unfold word_R. lia.
Qed.

Lemma render_J opcode target_address :
  0 <= opcode < 64 -> - 2 ^ 28 <= target_address < 2 ^ 28 ->
  render (to_binary opcode 6 +:+ to_binary (Z.shiftr target_address 2) 26)
  = OK (hex_of (word_J opcode target_address)).
Proof.
  intros Ho Ht.
  rewrite Z.shiftr_div_pow2 by lia. unfold word_J.
  rewrite Z.shiftr_div_pow2 by lia.
  assert (- 2 ^ 26 <= target_address / 2 ^ 2 < 2 ^ 26).
  { split; [apply Z.div_le_lower_bound | apply Z.div_lt_upper_bound]; lia. }
  rewrite to_binary_field by (simpl; lia).
  rewrite (to_binary_fixed _ 26) by (simpl; lia).
  change (2 ^ Z.of_nat 26) with (2 ^ 26).
  assert (0 <= (target_address / 2 ^ 2) mod 2 ^ 26 < 2 ^ 26)
    by (apply Z.mod_pos_bound; lia).
  rewrite fields_J by lia. apply render_fixed. lia.
Qed.

(** ** The encoder, instruction by instruction *)

Lemma assemble_parts line st cur part0 operands :
  parts_of line = part0 :: operands ->
  assemble line st cur
  = match dict_get INSTRUCTIONS (lower part0) with
    | None => Error (UnsupportedInstruction part0)
    | Some info =>
        bind (match info with
              | R funct => assemble_R (lower part0) funct operands
              | I opcode => assemble_I (lower part0) opcode operands st cur
              | J opcode => assemble_J (lower part0) opcode operands st
              end) render
    end.
Proof. intros H. unfold assemble. now rewrite H. Qed.

Section Branch.
Variables (line part0 o0 o1 label : string) (st : gmap string Z) (cur rs rt : Z).
Hypothesis Hparts : parts_of line = [part0; o0; o1; label].
Hypothesis Hmn : lower part0 = "beq" \/ lower part0 = "bne".
Hypothesis Hrs : parse_register o0 = OK rs.
Hypothesis Hrt : parse_register o1 = OK rt.

Lemma branch_resolved immediate :
  (match st !! label with
   | Some target_address => OK (Z.shiftr (target_address - (cur + 4)) 2)
   | None => int10 label
   end) = OK immediate ->
  assemble line st cur
  = if negb ((-32768 <=? immediate) && (immediate <=? 32767))
    then Error (BranchOffsetOutOfRange (lower part0) immediate)
    else OK (hex_of (word_I (opcode_of (lower part0)) rs rt immediate)).
Proof.
  intros Himm. rewrite (assemble_parts _ _ _ _ _ Hparts).
  pose proof (parse_register_range _ _ Hrs).
  pose proof (parse_register_range _ _ Hrt).
  destruct Hmn as [-> | ->]; cbn [dict_get INSTRUCTIONS String.eqb Ascii.eqb Bool.eqb];
    unfold assemble_I; cbn [String.eqb Ascii.eqb Bool.eqb orb];
    rewrite Hrs, Hrt; cbn [bind]; rewrite Himm; cbn [try_except bind];
    (destruct (negb _) eqn:E; [reflexivity|]);
    cbn [bind]; rewrite render_I by lia; reflexivity.
Qed.

Lemma branch_unresolved :
  st !! label = None -> py_int 10 label = None ->
  assemble line st cur = Error (InvalidLabelOrImmediate (lower part0) label).
Proof.
  intros Hst Hint. rewrite (assemble_parts _ _ _ _ _ Hparts).
  destruct Hmn as [-> | ->]; cbn [dict_get INSTRUCTIONS String.eqb Ascii.eqb Bool.eqb];
    unfold assemble_I; cbn [String.eqb Ascii.eqb Bool.eqb orb];
    rewrite Hrs, Hrt; cbn [bind]; rewrite Hst; unfold int10; rewrite Hint;
    reflexivity.
Qed.
End Branch.

Section Shift.
Variables (line part0 o0 o1 o2 : string) (st : gmap string Z) (cur rd rt : Z).
Hypothesis Hparts : parts_of line = [part0; o0; o1; o2].
Hypothesis Hmn : lower part0 = "sll".
Hypothesis Hrd : parse_register o0 = OK rd.
Hypothesis Hrt : parse_register o1 = OK rt.

Lemma sll_result :
  assemble line st cur
  = match py_int 10 o2 with
    | Some shamt =>
        if (0 <=? shamt) && (shamt <? 32)
        then OK (hex_of (word_R 0 rt rd shamt 0))
        else Error (InvalidShiftAmount "sll")
    | None => Error (InvalidShiftAmount "sll")
    end.
Proof.
  rewrite (assemble_parts _ _ _ _ _ Hparts), Hmn.
  pose proof (parse_register_range _ _ Hrd).
  pose proof (parse_register_range _ _ Hrt).
  cbn [dict_get INSTRUCTIONS String.eqb Ascii.eqb Bool.eqb].
  unfold assemble_R; cbn [String.eqb Ascii.eqb Bool.eqb].
  rewrite Hrd, Hrt; cbn [bind]. unfold int10.
  destruct (py_int 10 o2) as [shamt|]; [|reflexivity].
  cbn [bind]. destruct ((0 <=? shamt) && (shamt <? 32)) eqn:E; [|reflexivity].
  cbn [negb try_except bind]. now rewrite render_R by lia.
Qed.
End Shift.

Section Immediate.
Variables (line part0 o0 o1 o2 : string) (st : gmap string Z) (cur r0 r1 : Z).
Hypothesis Hparts : parts_of line = [part0; o0; o1; o2].

(** [addi rt, rs, immediate] *)
Lemma addi_result immediate :
  lower part0 = "addi" ->
  parse_register o0 = OK r0 -> parse_register o1 = OK r1 ->
  py_int 10 o2 = Some immediate ->
  assemble line st cur
  = render (to_binary 8 6 +:+ to_binary r1 5 +:+ to_binary r0 5
            +:+ to_binary immediate 16).
Proof.
  intros Hmn H0 H1 Hi. rewrite (assemble_parts _ _ _ _ _ Hparts), Hmn.
  cbn [dict_get INSTRUCTIONS String.eqb Ascii.eqb Bool.eqb].
  unfold assemble_I; cbn [String.eqb Ascii.eqb Bool.eqb orb].
  rewrite H0, H1; cbn [bind]. unfold int10. now rewrite Hi.
Qed.

(** [lw rt, immediate(rs)] and [sw rt, immediate(rs)] *)
Lemma memory_result immediate :
  lower part0 = "lw" \/ lower part0 = "sw" ->
  parse_register o0 = OK r0 -> parse_register o2 = OK r1 ->
  py_int 10 o1 = Some immediate ->
  assemble line st cur
  = render (to_binary (opcode_of (lower part0)) 6 +:+ to_binary r1 5
            +:+ to_binary r0 5 +:+ to_binary immediate 16).
Proof.
  intros Hmn H0 H1 Hi. rewrite (assemble_parts _ _ _ _ _ Hparts).
  destruct Hmn as [-> | ->];
    cbn [dict_get INSTRUCTIONS String.eqb Ascii.eqb Bool.eqb];
    unfold assemble_I; cbn [String.eqb Ascii.eqb Bool.eqb orb];
    rewrite H0, H1; cbn [bind]; unfold int10; now rewrite Hi.
Qed.
End Immediate.

Section Jump.
Variables (line part0 label : string) (st : gmap string Z) (cur : Z).
Hypothesis Hparts : parts_of line = [part0; label].
Hypothesis Hmn : lower part0 = "j".

Lemma jump_resolved target_address :
  (match st !! label with
   | Some target_address => OK target_address
   | None => int10 label
   end) = OK target_address ->
  assemble line st cur
  = if negb (target_address mod 4 =? 0)
    then Error (UnalignedJumpTarget target_address)
    else render (to_binary 2 6 +:+ to_binary (Z.shiftr target_address 2) 26).
Proof.
  intros Ht. rewrite (assemble_parts _ _ _ _ _ Hparts), Hmn.
  cbn [dict_get INSTRUCTIONS String.eqb Ascii.eqb Bool.eqb].
  unfold assemble_J. rewrite Ht. cbn [try_except bind].
  now destruct (negb _).
Qed.

Lemma jump_unresolved :
  st !! label = None -> py_int 10 label = None ->
  assemble line st cur = Error (InvalidLabelOrAddress "j" label).
Proof.
  intros Hst Hint. rewrite (assemble_parts _ _ _ _ _ Hparts), Hmn.
  cbn [dict_get INSTRUCTIONS String.eqb Ascii.eqb Bool.eqb].
  unfold assemble_J. rewrite Hst. unfold int10. now rewrite Hint.
Qed.
End Jump.

(** ** Claims about the encoder *)

(** C1. For a [beq] or [bne] whose third operand is a label of the symbol
    table, the immediate is [(target_address - (current_address + 4)) / 4]
    (the quotient rounded down, in words); for one whose third operand is no
    label but an integer literal, it is that integer. When the immediate
    lies in [-32768, 32767] the line is encoded and the low 16 bits of the
    word are the immediate in two's complement; the encoder fails with the
    out-of-range error exactly when the immediate lies outside. *)
Theorem branch_immediate_field line part0 o0 o1 label st cur rs rt immediate :
  parts_of line = [part0; o0; o1; label] ->
  lower part0 = "beq" \/ lower part0 = "bne" ->
  parse_register o0 = OK rs -> parse_register o1 = OK rt ->
  (exists target_address, st !! label = Some target_address
     /\ immediate = (target_address - (cur + 4)) / 4)
  \/ (st !! label = None /\ py_int 10 label = Some immediate) ->
  (in_int16 immediate ->
     assemble line st cur
     = OK (hex_of (word_I (opcode_of (lower part0)) rs rt immediate))
     /\ word_I (opcode_of (lower part0)) rs rt immediate mod 2 ^ 16
        = immediate mod 2 ^ 16)
  /\ (assemble line st cur
      = Error (BranchOffsetOutOfRange (lower part0) immediate)
      <-> ~ in_int16 immediate).
Proof.
  intros Hparts Hmn Hrs Hrt Himm.
  assert (E : assemble line st cur = encode_branch (lower part0) rs rt immediate).
  { apply (branch_resolved _ _ _ _ _ _ _ _ _ Hparts Hmn Hrs Hrt).
    destruct Himm as [(target & -> & ->) | [-> Hint]].
    - now rewrite Z.shiftr_div_pow2 by lia.
    - unfold int10. now rewrite Hint. }
  rewrite E. unfold encode_branch, in_int16.
  destruct ((-32768 <=? immediate) && (immediate <=? 32767)) eqn:B; cbn [negb].
  - split; [intros _; split; [reflexivity | apply word_I_immediate]|].
    split; [discriminate | lia].
  - split; [lia|]. split; [lia | reflexivity].
Qed.

Lemma branch_immediate_field_witness :
  assemble "beq $t0, $t1, L" {["L"%string := 8]} 0 = OK "0x1109_0001"%string
  /\ assemble "bne $t0, $t1, 40000" ∅ 0
     = Error (BranchOffsetOutOfRange "bne" 40000).
Proof.
  split.
  - apply (branch_immediate_field "beq $t0, $t1, L" "beq" "$t0" "$t1" "L"
             {["L"%string := 8]} 0 8 9 1); try reflexivity.
    + left; reflexivity.
    + left. exists 8. split; reflexivity.
    + unfold in_int16. lia.
  - apply (branch_immediate_field "bne $t0, $t1, 40000" "bne" "$t0" "$t1" "40000"
             ∅ 0 8 9 40000); try reflexivity.
    + right; reflexivity.
    + right. split; reflexivity.
    + unfold in_int16. lia.
Defined.

Lemma word_R_shamt rs rt rd shamt funct :
  0 <= shamt < 32 -> 0 <= funct < 64 ->
  (word_R rs rt rd shamt funct / 2 ^ 6) mod 2 ^ 5 = shamt.
Proof.
  intros Hs Hf. unfold word_R.
  replace (rs * 2 ^ 21 + rt * 2 ^ 16 + rd * 2 ^ 11 + shamt * 2 ^ 6 + funct)
    with (funct + (shamt + (rs * 2 ^ 10 + rt * 2 ^ 5 + rd) * 2 ^ 5) * 2 ^ 6)
    by lia.
  rewrite Z.div_add, Z.div_small, Z.add_0_l, Z.mod_add by lia.
  apply Z.mod_small. lia.
Qed.

(** C8. An [sll] with three operands, the first two of them registers,
    fails with the shift-amount error whenever its third operand is not an
    integer of [0, 31], and is encoded otherwise, bits 6 to 10 of the word
    being the shift amount. *)
Theorem sll_shift_amount line part0 o0 o1 o2 st cur rd rt :
  parts_of line = [part0; o0; o1; o2] ->
  lower part0 = "sll" ->
  parse_register o0 = OK rd -> parse_register o1 = OK rt ->
  (~ (exists shamt, py_int 10 o2 = Some shamt /\ 0 <= shamt <= 31) ->
     assemble line st cur = Error (InvalidShiftAmount "sll"))
  /\ (forall shamt, py_int 10 o2 = Some shamt -> 0 <= shamt <= 31 ->
        assemble line st cur = OK (hex_of (word_R 0 rt rd shamt 0))
        /\ (word_R 0 rt rd shamt 0 / 2 ^ 6) mod 2 ^ 5 = shamt).
Proof.
  intros Hparts Hmn Hrd Hrt.
  rewrite (sll_result _ _ _ _ _ st cur _ _ Hparts Hmn Hrd Hrt).
  split.
  - intros Hno. destruct (py_int 10 o2) as [shamt|]; [|reflexivity].
    destruct ((0 <=? shamt) && (shamt <? 32)) eqn:B; [|reflexivity].
    exfalso. apply Hno. exists shamt. split; [reflexivity | lia].
  - intros shamt -> Hr.
    replace ((0 <=? shamt) && (shamt <? 32)) with true by lia.
    split; [reflexivity | apply word_R_shamt; lia].
Qed.

Lemma sll_shift_amount_witness :
  assemble "sll $t0, $t1, 32" ∅ 0 = Error (InvalidShiftAmount "sll")
  /\ assemble "sll $t0, $t1, x" ∅ 0 = Error (InvalidShiftAmount "sll")
  /\ assemble "sll $t0, $t1, 31" ∅ 0 = OK "0x0009_47c0"%string.
Proof.
  split; [|split].
  - apply (sll_shift_amount "sll $t0, $t1, 32" "sll" "$t0" "$t1" "32" ∅ 0 8 9);
      try reflexivity.
    intros (shamt & H & Hr). vm_compute in H. injection H as <-. lia.
  - apply (sll_shift_amount "sll $t0, $t1, x" "sll" "$t0" "$t1" "x" ∅ 0 8 9);
      try reflexivity.
    intros (shamt & H & Hr). vm_compute in H. discriminate.
  - exact (proj1 (proj2 (sll_shift_amount "sll $t0, $t1, 31" "sll" "$t0" "$t1"
                           "31" ∅ 0 8 9 eq_refl eq_refl eq_refl eq_refl)
                    31 eq_refl ltac:(lia))).
Defined.

(** C10. The operand of a [j], and the third operand of a [beq] or [bne],
    is looked up in the symbol table first: when it is the name of a label,
    the line is encoded from the address of that label, whatever the operand
    would be as an integer literal; it is read as a literal only when the
    table has no such label. *)
Theorem label_before_literal line part0 st cur :
  (forall label,
     parts_of line = [part0; label] -> lower part0 = "j" ->
     assemble line st cur
     = match st !! label with
       | Some target_address => encode_jump target_address
       | None =>
           match py_int 10 label with
           | Some target_address => encode_jump target_address
           | None => Error (InvalidLabelOrAddress "j" label)
           end
       end)
  /\ (forall o0 o1 label rs rt,
        parts_of line = [part0; o0; o1; label] ->
        lower part0 = "beq" \/ lower part0 = "bne" ->
        parse_register o0 = OK rs -> parse_register o1 = OK rt ->
        assemble line st cur
        = match st !! label with
          | Some target_address =>
              encode_branch (lower part0) rs rt
                (Z.shiftr (target_address - (cur + 4)) 2)
          | None =>
              match py_int 10 label with
              | Some immediate => encode_branch (lower part0) rs rt immediate
              | None => Error (InvalidLabelOrImmediate (lower part0) label)
              end
          end).
Proof.
  split.
  - intros label Hparts Hmn.
    destruct (st !! label) as [target|] eqn:Hst.
    + apply (jump_resolved _ _ _ _ _ Hparts Hmn). now rewrite Hst.
    + destruct (py_int 10 label) as [target|] eqn:Hint.
      * apply (jump_resolved _ _ _ _ _ Hparts Hmn).
        rewrite Hst. unfold int10. now rewrite Hint.
      * now apply (jump_unresolved _ _ _ _ _ Hparts Hmn).
  - intros o0 o1 label rs rt Hparts Hmn Hrs Hrt.
    destruct (st !! label) as [target|] eqn:Hst.
    + apply (branch_resolved _ _ _ _ _ _ _ _ _ Hparts Hmn Hrs Hrt).
      now rewrite Hst.
    + destruct (py_int 10 label) as [immediate|] eqn:Hint.
      * apply (branch_resolved _ _ _ _ _ _ _ _ _ Hparts Hmn Hrs Hrt).
        rewrite Hst. unfold int10. now rewrite Hint.
      * now apply (branch_unresolved _ _ _ _ _ _ _ _ _ Hparts Hmn Hrs Hrt).
Qed.

(** A label named [8] changes the meaning of [j 8]: the jump goes to the
    label (address 0), not to address 8. *)
Lemma label_before_literal_witness :
  first_pass ["8: add $t0, $t0, $t0"; "j 8"]%string = OK {["8"%string := 0]}
  /\ assemble "j 8" {["8"%string := 0]} 4 = OK "0x0800_0000"%string
  /\ assemble "j 8" ∅ 4 = OK "0x0800_0002"%string
  /\ assemble "beq $0, $0, 8" {["8"%string := 0]} 4 = OK "0x1000_fffe"%string
  /\ assemble "beq $0, $0, 8" ∅ 4 = OK "0x1000_0008"%string.
Proof.
  split; [vm_compute; reflexivity|].
  split; [|split; [|split]].
  - exact (proj1 (label_before_literal "j 8" "j" {["8"%string := 0]} 4)
             "8"%string eq_refl eq_refl).
  - exact (proj1 (label_before_literal "j 8" "j" ∅ 4)
             "8"%string eq_refl eq_refl).
  - exact (proj2 (label_before_literal "beq $0, $0, 8" "beq" {["8"%string := 0]} 4)
             "$0" "$0" "8" 0 0 eq_refl (or_introl eq_refl) eq_refl eq_refl)%string.
  - exact (proj2 (label_before_literal "beq $0, $0, 8" "beq" ∅ 4)
             "$0" "$0" "8" 0 0 eq_refl (or_introl eq_refl) eq_refl eq_refl)%string.
Defined.

(** The immediates of [addi], [lw] and [sw] that are encoded as their
    two's complement in 16 bits: those of [-65536, 65535]. *)
Lemma addi_immediate_fits line part0 o0 o1 o2 st cur rt rs immediate :
  parts_of line = [part0; o0; o1; o2] -> lower part0 = "addi" ->
  parse_register o0 = OK rt -> parse_register o1 = OK rs ->
  py_int 10 o2 = Some immediate -> - 65536 <= immediate < 65536 ->
  assemble line st cur = OK (hex_of (word_I 8 rs rt immediate)).
Proof.
  intros Hparts Hmn Hrt Hrs Hi Hr.
  rewrite (addi_result _ _ _ _ _ st cur _ _ Hparts _ Hmn Hrt Hrs Hi).
  pose proof (parse_register_range _ _ Hrt).
  pose proof (parse_register_range _ _ Hrs).
  apply render_I; lia.
Qed.

Lemma memory_immediate_fits line part0 o0 o1 o2 st cur rt rs immediate :
  parts_of line = [part0; o0; o1; o2] ->
  lower part0 = "lw" \/ lower part0 = "sw" ->
  parse_register o0 = OK rt -> parse_register o2 = OK rs ->
  py_int 10 o1 = Some immediate -> - 65536 <= immediate < 65536 ->
  assemble line st cur
  = OK (hex_of (word_I (opcode_of (lower part0)) rs rt immediate)).
Proof.
  intros Hparts Hmn Hrt Hrs Hi Hr.
  rewrite (memory_result _ _ _ _ _ st cur _ _ Hparts _ Hmn Hrt Hrs Hi).
  pose proof (parse_register_range _ _ Hrt).
  pose proof (parse_register_range _ _ Hrs).
  apply render_I; [destruct Hmn as [-> | ->]; vm_compute; split; congruence | lia..].
Qed.

(** C2. Beyond [-65536, 65535] the immediate of [addi], [lw] and [sw] is
    not reduced to 16 bits. [to_binary] gives 17 digits for 65536, so the
    fields of [addi $t1, $zero, 65536] are shifted one place (the word read
    back is that of another opcode, where reduction to 16 bits would give
    [0x2009_0000]) and [lw $t1, 65536($t2)] is rendered with nine digits; for
    -65537 [to_binary] gives a text with a minus sign, which [int] refuses,
    so the line fails. *)
Theorem immediate_not_truncated :
  assemble "addi $t1, $zero, 65536" ∅ 0 = OK "0x4013_0000"%string
  /\ hex_of (word_I 8 0 9 65536) = "0x2009_0000"%string
  /\ assemble "lw $t1, 65536($t2)" ∅ 0 = OK "0x11a9_30000"%string
  /\ assemble "addi $t1, $zero, -65537" ∅ 0
     = Error (InvalidLiteral 2 "0010000000001001-000000000000001")
  /\ second_pass ["addi $t1, $zero, -65537"%string] ∅
     = Error (LineError "addi $t1, $zero, -65537"
                (InvalidLiteral 2 "0010000000001001-000000000000001")).
Proof. repeat split; vm_compute; reflexivity. Qed.

(** The three outcomes of a [j]: an operand that is neither a label nor an
    integer, a target that is not a multiple of 4 (whether it comes from the
    table or from a literal), and a target of [-2^28, 2^28) that is one. *)
Lemma jump_encoding line part0 label st cur :
  parts_of line = [part0; label] -> lower part0 = "j" ->
  (st !! label = None -> py_int 10 label = None ->
     assemble line st cur = Error (InvalidLabelOrAddress "j" label))
  /\ (forall target_address,
        st !! label = Some target_address
        \/ (st !! label = None /\ py_int 10 label = Some target_address) ->
        (target_address mod 4 <> 0 ->
           assemble line st cur = Error (UnalignedJumpTarget target_address))
        /\ (target_address mod 4 = 0 ->
            - 2 ^ 28 <= target_address < 2 ^ 28 ->
            assemble line st cur = OK (hex_of (word_J 2 target_address)))).
Proof.
  intros Hparts Hmn. split.
  - apply (jump_unresolved _ _ _ _ _ Hparts Hmn).
  - intros target Hres.
    assert (E : assemble line st cur = encode_jump target).
    { apply (jump_resolved _ _ _ _ _ Hparts Hmn).
      destruct Hres as [-> | [-> Hint]]; [reflexivity|].
      unfold int10. now rewrite Hint. }
    rewrite E. unfold encode_jump. split.
    + intros Hna. now replace (target mod 4 =? 0) with false by lia.
    + intros Ha Hr. replace (target mod 4 =? 0) with true by lia.
      cbn [negb]. apply render_J; lia.
Qed.

(** C7. A target address beyond 28 bits is not reduced to the 26 bits of the
    field. For [j 268435456] (a multiple of 4) [to_binary] gives 27
    digits, and the word read back is [0x1400_0000], whose opcode field is
    that of [bne], where the opcode of [j] followed by the 26 low bits of
    the shifted address is [0x0800_0000]; the same happens when the address
    comes from a label. For -268435460 [to_binary] gives a text with a minus
    sign and the line fails in [int]. *)
Theorem jump_target_not_truncated :
  assemble "j 268435456" ∅ 0 = OK "0x1400_0000"%string
  /\ assemble "j far" {["far"%string := 268435456]} 0 = OK "0x1400_0000"%string
  /\ hex_of (word_J 2 268435456) = "0x0800_0000"%string
  /\ assemble "bne $zero, $zero, 0" ∅ 0 = OK "0x1400_0000"%string
  /\ assemble "j -268435460" ∅ 0
     = Error (InvalidLiteral 2 "000010-0000000000000000000000001").
Proof. repeat split; vm_compute; reflexivity. Qed.

(** [to_binary] on the values of the specification: -1, 32767 and -32768 in
    16 bits read back as [0xFFFF], [0x7FFF] and [0x8000]. *)
Lemma to_binary_examples :
  py_int 2 (to_binary (-1) 16) = Some 0xFFFF
  /\ py_int 2 (to_binary 32767 16) = Some 0x7FFF
  /\ py_int 2 (to_binary (-32768) 16) = Some 0x8000.
Proof. repeat split; vm_compute; reflexivity. Qed.

(** On [-2^bits, 2^bits), [to_binary] gives [bits] binary digits, which read
    back as [n mod 2^bits]. *)
Lemma to_binary_fits n bits :
  (2 <= bits)%nat -> - 2 ^ Z.of_nat bits <= n < 2 ^ Z.of_nat bits ->
  String.length (to_binary n bits) = bits
  /\ py_int 2 (to_binary n bits) = Some (n mod 2 ^ Z.of_nat bits).
Proof.
  intros Hk Hn. rewrite to_binary_fixed by lia.
  split; [apply length_fixed_digits|].
  rewrite py_int2_fixed by lia. f_equal. apply Z.mod_mod.
  assert (0 < 2 ^ Z.of_nat bits) by (apply Z.pow_pos_nonneg; lia). lia.
Qed.

Lemma length_zeros k : String.length (zeros k) = k.
Proof. induction k as [|k IH]; simpl; [reflexivity | now rewrite IH]. Qed.

(** A number of [2^k] or more has more than [k] binary digits. *)
Lemma digits_of_longer fuel : forall n (k : nat),
  2 ^ Z.of_nat k <= n -> n < 2 ^ Z.of_nat fuel ->
  (k < String.length (digits_of 2 fuel n))%nat.
Proof.
  induction fuel as [|fuel IH]; intros n k Hk Hf.
  - assert (0 < 2 ^ Z.of_nat k) by (apply Z.pow_pos_nonneg; lia).
    simpl in Hf. lia.
  - cbn [digits_of]. destruct (Z.ltb_spec n 2) as [Hlt|Hge].
    + destruct k as [|k]; [simpl; lia|].
      rewrite Nat2Z.inj_succ, Z.pow_succ_r in Hk by lia.
      assert (0 < 2 ^ Z.of_nat k) by (apply Z.pow_pos_nonneg; lia). lia.
    + rewrite length_append. cbn [String.length].
      destruct k as [|k]; [lia|].
      rewrite Nat2Z.inj_succ, Z.pow_succ_r in Hk, Hf by lia.
      assert (k < String.length (digits_of 2 fuel (n / 2)))%nat; [|lia].
      apply IH.
      * apply Z.div_le_lower_bound; lia.
      * apply Z.div_lt_upper_bound; lia.
Qed.

Lemma to_binary_too_long n bits :
  2 ^ Z.of_nat bits <= n -> (bits < String.length (to_binary n bits))%nat.
Proof.
  intros Hn.
  assert (0 < 2 ^ Z.of_nat bits) by (apply Z.pow_pos_nonneg; lia).
  unfold to_binary, format_int.
  destruct (Z.ltb_spec n 0); [lia|]. destruct (Z.ltb_spec n 0); [lia|].
  rewrite Z.abs_eq by lia. unfold zfill.
  rewrite length_append, length_zeros.
  assert (bits < String.length
                   (digits_of 2 (S (Z.to_nat (Z.log2 n))) n))%nat; [|lia].
  apply digits_of_longer; [assumption|].
  rewrite Nat2Z.inj_succ, Z2Nat.id by apply Z.log2_nonneg.
  apply Z.log2_spec. lia.
Qed.

Lemma to_binary_signed n bits :
  n < - 2 ^ Z.of_nat bits -> exists r, to_binary n bits = String "-" r.
Proof.
  intros Hn.
  assert (0 < 2 ^ Z.of_nat bits) by (apply Z.pow_pos_nonneg; lia).
  unfold to_binary, format_int. rewrite Z.shiftl_1_l.
  destruct (Z.ltb_spec n 0); [|lia].
  destruct (Z.ltb_spec (2 ^ Z.of_nat bits + n) 0); [|lia].
  eauto.
Qed.

(** C4. [to_binary] adds [2^bits] to a negative value and formats the
    result with [bits] as the least width. The text has [bits] binary digits
    for the values of [-2^bits, 2^bits) only: a value of [2^bits] or more
    gives more digits, as 65536 in 16 bits gives 17, and a value below
    [-2^bits] gives a minus sign before the digits, as -65537 does. *)
Theorem to_binary_width :
  (forall n bits,
     to_binary n bits
     = format_int 2 bits (if n <? 0 then 2 ^ Z.of_nat bits + n else n))
  /\ (forall n bits,
        2 ^ Z.of_nat bits <= n -> (bits < String.length (to_binary n bits))%nat)
  /\ (forall n bits,
        n < - 2 ^ Z.of_nat bits -> exists r, to_binary n bits = String "-" r)
  /\ to_binary 65536 16 = "10000000000000000"%string
  /\ to_binary (-65537) 16 = "-000000000000001"%string.
Proof.
  split; [|split; [|split; [|split]]].
  - intros n bits. unfold to_binary. now rewrite Z.shiftl_1_l.
  - apply to_binary_too_long.
  - apply to_binary_signed.
  - vm_compute. reflexivity.
  - vm_compute. reflexivity.
Qed.

Lemma to_binary_width_witness :
  (16 < String.length (to_binary 65536 16))%nat
  /\ exists r, to_binary (-65537) 16 = String "-" r.
Proof.
  split.
  - apply (proj1 (proj2 to_binary_width) 65536 16%nat). simpl. lia.
  - apply (proj1 (proj2 (proj2 to_binary_width)) (-65537) 16%nat). simpl. lia.
Defined.

(** ** The two loops, line by line *)

Lemma is_empty_true s : is_empty s = true -> s = EmptyString.
Proof. now destruct s. Qed.

Lemma first_pass_step_eq s line :
  first_pass_step s line
  = let address := fp_address s + (if instruction_bearing line then 4 else 0) in
    match label_of line with
    | Some label =>
        match fp_symbol_table s !! label with
        | Some _ => Error (DuplicateLabel label)
        | None =>
            OK {| fp_symbol_table := <[label := fp_address s]> (fp_symbol_table s);
                  fp_address := address |}
        end
    | None => OK {| fp_symbol_table := fp_symbol_table s; fp_address := address |}
    end.
Proof.
  unfold first_pass_step, label_of, instruction_bearing, instruction_of.
  fold (stripped line).
  destruct (is_empty (stripped line)) eqn:E.
  - apply is_empty_true in E. rewrite E. cbn.
    destruct s; cbn. do 2 f_equal. lia.
  - destruct (label_match (stripped line)) as [[label group2]|].
    + destruct (fp_symbol_table s !! label); [reflexivity|].
      cbn zeta. destruct (is_empty (strip group2)); cbn [negb]; do 2 f_equal; lia.
    + now rewrite E.
Qed.

Lemma second_pass_step_eq st s line :
  second_pass_step st s line
  = if blank line then OK s
    else if instruction_bearing line then
      match assemble (instruction_of line) st (sp_address s) with
      | OK code =>
          OK {| sp_machine_codes := sp_machine_codes s ++ [(line, Some code)];
                sp_address := sp_address s + 4 |}
      | Error e => Error (LineError (strip line) e)
      end
    else
      OK {| sp_machine_codes := sp_machine_codes s ++ [(line, None)];
            sp_address := sp_address s |}.
Proof.
  unfold second_pass_step, blank, instruction_bearing, instruction_of.
  fold (stripped line).
  destruct (is_empty (stripped line)); [reflexivity|].
  destruct (is_empty _); cbn [negb]; [reflexivity|].
  now destruct (assemble _ _ _).
Qed.

Lemma blank_no_instruction line : blank line = true -> instruction_bearing line = false.
Proof.
  unfold blank, instruction_bearing, instruction_of. intros E.
  apply is_empty_true in E. now rewrite E.
Qed.

Lemma blank_no_label line : blank line = true -> label_of line = None.
Proof.
  unfold blank, label_of. intros E. apply is_empty_true in E. now rewrite E.
Qed.

Lemma for_lines_app {S : Type} (step : S -> string -> result S) s l1 l2 :
  for_lines step s (l1 ++ l2)
  = bind (for_lines step s l1) (fun s' => for_lines step s' l2).
Proof.
  revert s. induction l1 as [|l l1 IH]; intros s; cbn; [reflexivity|].
  destruct (step s l); cbn; [apply IH | reflexivity].
Qed.

Lemma instruction_count_app l1 l2 :
  instruction_count (l1 ++ l2) = instruction_count l1 + instruction_count l2.
Proof. induction l1 as [|l l1 IH]; cbn [instruction_count app]; lia. Qed.

Lemma instruction_count_none lines :
  Forall (fun l => instruction_bearing l = false) lines ->
  instruction_count lines = 0.
Proof.
  induction 1 as [|l lines Hl _ IH]; cbn [instruction_count]; [reflexivity|].
  rewrite Hl. lia.
Qed.

Lemma first_pass_step_address s line t :
  first_pass_step s line = OK t ->
  fp_address t = fp_address s + (if instruction_bearing line then 4 else 0).
Proof.
  rewrite first_pass_step_eq. cbn zeta.
  destruct (label_of line) as [label|];
    [destruct (fp_symbol_table s !! label); [discriminate|]|];
    now intros [= <-].
Qed.

Lemma second_pass_step_address st s line t :
  second_pass_step st s line = OK t ->
  sp_address t = sp_address s + (if instruction_bearing line then 4 else 0).
Proof.
  rewrite second_pass_step_eq.
  destruct (blank line) eqn:B.
  - rewrite (blank_no_instruction _ B). intros [= <-]. lia.
  - destruct (instruction_bearing line).
    + destruct (assemble _ _ _); [|discriminate]. now intros [= <-].
    + intros [= <-]. cbn. lia.
Qed.

Lemma first_pass_address lines : forall s t,
  for_lines first_pass_step s lines = OK t ->
  fp_address t = fp_address s + 4 * instruction_count lines.
Proof.
  induction lines as [|l lines IH]; intros s t; cbn [for_lines instruction_count].
  - intros [= <-]. lia.
  - destruct (first_pass_step s l) as [s'|] eqn:E; [|discriminate]. cbn [bind].
    intros H. rewrite (IH _ _ H), (first_pass_step_address _ _ _ E).
    destruct (instruction_bearing l); lia.
Qed.

Lemma second_pass_address st lines : forall s t,
  for_lines (second_pass_step st) s lines = OK t ->
  sp_address t = sp_address s + 4 * instruction_count lines.
Proof.
  induction lines as [|l lines IH]; intros s t; cbn [for_lines instruction_count].
  - intros [= <-]. lia.
  - destruct (second_pass_step st s l) as [s'|] eqn:E; [|discriminate]. cbn [bind].
    intros H. rewrite (IH _ _ H), (second_pass_step_address _ _ _ _ E).
    destruct (instruction_bearing l); lia.
Qed.

(** ** The shape of what the encoder returns *)

Lemma digit_value_nonneg c : 0 <= default 0 (digit_value c).
Proof.
  unfold digit_value. set (n := ord c).
  destruct ((48 <=? n) && (n <=? 57)) eqn:E1;
    [change (0 <= n - 48); lia|].
  destruct ((97 <=? n) && (n <=? 122)) eqn:E2;
    [change (0 <= n - 87); lia|].
  destruct ((65 <=? n) && (n <=? 90)) eqn:E3;
    [change (0 <= n - 55); lia|].
  change (0 <= 0). lia.
Qed.

Lemma int_digits_nonneg base s : 0 <= base -> forall us acc v r,
  0 <= acc -> int_digits base s us acc = Some (v, r) -> 0 <= v.
Proof.
  intros Hb. induction s as [|c s IH]; intros us acc v r Hacc; cbn [int_digits].
  - destruct us; [discriminate|]. now intros [= <- _].
  - destruct (Ascii.eqb c "_").
    + destruct us; [discriminate|]. now apply IH.
    + destruct (is_digit base c).
      * apply IH. pose proof (digit_value_nonneg c). nia.
      * destruct us; [discriminate|]. now intros [= <- _].
Qed.

Lemma py_int2_nonneg c0 c1 r v :
  is_bin c0 -> is_bin c1 -> py_int 2 (String c0 (String c1 r)) = Some v -> 0 <= v.
Proof.
  intros H0 H1. rewrite py_int2_digits by assumption.
  destruct (int_digits 2 _ false 0) as [[v' rest]|] eqn:E; [|discriminate].
  destruct (all_int_space rest); [|discriminate]. intros [= <-].
  apply (int_digits_nonneg 2 _ ltac:(lia) false 0 v' rest ltac:(lia) E).
Qed.

Lemma two_bits_append s r : two_bits s -> two_bits (s +:+ r).
Proof.
  intros (c0 & c1 & t & H0 & H1 & ->). exists c0, c1, (t +:+ r). auto.
Qed.

Lemma opcode_two_bits mnemonic opcode :
  dict_get INSTRUCTIONS mnemonic = Some (I opcode)
  \/ dict_get INSTRUCTIONS mnemonic = Some (J opcode) ->
  two_bits (to_binary opcode 6).
Proof.
  unfold INSTRUCTIONS. cbn [dict_get].
  repeat (destruct (String.eqb mnemonic _);
          [intros [[= <-] | [= <-]];
           eexists _, _, _; (split; [|split; [|vm_compute; reflexivity]]);
           (left + right); reflexivity|]).
  intros [|]; discriminate.
Qed.

Lemma assemble_R_two_bits mnemonic funct operands b :
  assemble_R mnemonic funct operands = OK b -> two_bits b.
Proof.
  unfold assemble_R, bind, try_except. branch_cases;
    intros [= <-]; exists "0"%char, "0"%char; eexists;
    (split; [now left | split; [now left | reflexivity]]).
Qed.

Lemma assemble_I_two_bits mnemonic opcode operands st cur b :
  two_bits (to_binary opcode 6) ->
  assemble_I mnemonic opcode operands st cur = OK b -> two_bits b.
Proof.
  intros Ho. unfold assemble_I, bind, try_except. branch_cases;
    intros [= <-]; now apply two_bits_append.
Qed.

Lemma assemble_J_two_bits mnemonic opcode operands st b :
  two_bits (to_binary opcode 6) ->
  assemble_J mnemonic opcode operands st = OK b -> two_bits b.
Proof.
  intros Ho. unfold assemble_J, bind, try_except. branch_cases;
    intros [= <-]; now apply two_bits_append.
Qed.

(** What [assemble] returns is empty (a line of separators only) or the
    rendering of a number that is not negative. *)
Lemma assemble_ok_shape line st cur code :
  assemble line st cur = OK code ->
  code = EmptyString \/ exists v, 0 <= v /\ code = hex_of v.
Proof.
  unfold assemble.
  destruct (parts_of line) as [|part0 operands]; [intros [= <-]; now left|].
  destruct (dict_get INSTRUCTIONS (lower part0)) as [i|] eqn:Hi; [|discriminate].
  intros H. right.
  assert (Hb : exists b, two_bits b /\ render b = OK code).
  { destruct i as [funct|opcode|opcode];
      match type of H with bind ?a _ = _ => destruct a as [b|] eqn:E end;
      try discriminate; exists b; (split; [|exact H]).
    - eapply assemble_R_two_bits, E.
    - eapply assemble_I_two_bits, E. eapply opcode_two_bits; eauto.
    - eapply assemble_J_two_bits, E. eapply opcode_two_bits; eauto. }
  destruct Hb as (b & (c0 & c1 & r & H0 & H1 & ->) & Hr).
  unfold render in Hr.
  destruct (py_int 2 _) as [v|] eqn:E; [|discriminate].
  injection Hr as <-. exists v. split; [|reflexivity].
  exact (py_int2_nonneg _ _ _ _ H0 H1 E).
Qed.

Lemma is_hex_digit_char d : 0 <= d < 16 -> is_hex_char (digit_char d) = true.
Proof.
  intros H.
  assert (E : d = 0 \/ d = 1 \/ d = 2 \/ d = 3 \/ d = 4 \/ d = 5 \/ d = 6
              \/ d = 7 \/ d = 8 \/ d = 9 \/ d = 10 \/ d = 11 \/ d = 12
              \/ d = 13 \/ d = 14 \/ d = 15) by lia.
  repeat (destruct E as [-> | E]; [reflexivity|]). now subst.
Qed.

(** A word below [2^32] is rendered as [0xHHHH_HHHH]. *)
Lemma hex_of_word_text v : 0 <= v < 2 ^ 32 -> word_text (hex_of v) = true.
Proof.
  intros Hv. unfold hex_of. rewrite format_int_fixed by (cbn; lia).
  cbn [fixed_digits String.append str_take str_drop word_text forallb].
  rewrite !is_hex_digit_char by (apply Z.mod_pos_bound; lia). reflexivity.
Qed.

(** ** The symbol table of the first pass *)

Lemma first_pass_step_table s line t :
  first_pass_step s line = OK t ->
  match label_of line with
  | Some label =>
      fp_symbol_table s !! label = None
      /\ fp_symbol_table t = <[label := fp_address s]> (fp_symbol_table s)
  | None => fp_symbol_table t = fp_symbol_table s
  end.
Proof.
  rewrite first_pass_step_eq. cbn zeta.
  destruct (label_of line) as [label|].
  - destruct (fp_symbol_table s !! label); [discriminate|].
    now intros [= <-].
  - now intros [= <-].
Qed.

Lemma first_pass_step_error s line e :
  first_pass_step s line = Error e ->
  exists label, label_of line = Some label
    /\ is_Some (fp_symbol_table s !! label) /\ e = DuplicateLabel label.
Proof.
  rewrite first_pass_step_eq. cbn zeta.
  destruct (label_of line) as [label|]; [|discriminate].
  destruct (fp_symbol_table s !! label) eqn:E; [|discriminate].
  intros [= <-]. exists label. rewrite E. eauto.
Qed.

Lemma first_pass_keeps lines : forall s t (k : string) v,
  for_lines first_pass_step s lines = OK t ->
  fp_symbol_table s !! k = Some v -> fp_symbol_table t !! k = Some v.
Proof.
  induction lines as [|l lines IH]; intros s t k v; cbn [for_lines].
  - now intros [= <-].
  - destruct (first_pass_step s l) as [s'|] eqn:E; [|discriminate]. cbn [bind].
    intros H Hk. apply (IH _ _ _ _ H).
    apply first_pass_step_table in E.
    destruct (label_of l) as [label|]; [|now rewrite E].
    destruct E as [Hfresh ->]. rewrite lookup_insert_ne; [assumption|].
    intros ->. congruence.
Qed.

Lemma first_pass_defines before line after s t label :
  for_lines first_pass_step s (before ++ line :: after) = OK t ->
  label_of line = Some label ->
  fp_symbol_table t !! label
  = Some (fp_address s + 4 * instruction_count before).
Proof.
  rewrite for_lines_app.
  destruct (for_lines first_pass_step s before) as [s1|] eqn:E1; [|discriminate].
  cbn [bind for_lines].
  destruct (first_pass_step s1 line) as [s2|] eqn:E2; [|discriminate].
  cbn [bind]. intros H Hl. apply (first_pass_keeps _ _ _ _ _ H).
  apply first_pass_step_table in E2. rewrite Hl in E2. destruct E2 as [_ ->].
  rewrite lookup_insert_eq. f_equal. apply (first_pass_address _ _ _ E1).
Qed.

Lemma first_pass_fresh lines : forall s t,
  for_lines first_pass_step s lines = OK t ->
  NoDup (defined_labels lines)
  /\ forall label, label ∈ defined_labels lines ->
       fp_symbol_table s !! label = None.
Proof.
  induction lines as [|l lines IH]; intros s t; cbn [for_lines].
  - intros _. split; [constructor|]. intros label H. inversion H.
  - destruct (first_pass_step s l) as [s'|] eqn:E; [|discriminate]. cbn [bind].
    intros H. destruct (IH _ _ H) as [Hnd Hfresh].
    apply first_pass_step_table in E.
    unfold defined_labels in *. cbn [omap list_omap].
    destruct (label_of l) as [label|].
    + destruct E as [Hnew E]. split.
      * constructor; [|assumption]. intros Hin.
        apply Hfresh in Hin. rewrite E, lookup_insert_eq in Hin. discriminate.
      * intros k [-> | Hin]%elem_of_cons; [assumption|].
        apply Hfresh in Hin. rewrite E in Hin.
        destruct (decide (label = k)) as [-> | Hne].
        -- rewrite lookup_insert_eq in Hin. discriminate.
        -- now rewrite lookup_insert_ne in Hin.
    + rewrite E in Hfresh. now split.
Qed.

Lemma first_pass_only_duplicates lines : forall s e,
  for_lines first_pass_step s lines = Error e ->
  exists label, e = DuplicateLabel label.
Proof.
  induction lines as [|l lines IH]; intros s e; cbn [for_lines]; [discriminate|].
  destruct (first_pass_step s l) as [s'|e'] eqn:E; cbn [bind].
  - apply IH.
  - intros [= <-]. apply first_pass_step_error in E as (label & _ & _ & ->).
    eauto.
Qed.

(** ** Claims about the two passes *)

(** C6. A program in which two lines define the same label, with or without
    an instruction after it, makes the first pass fail with the duplicate
    label error, before any line is encoded; so a symbol table that the
    first pass returns holds each label of the program once. *)
Theorem duplicate_label_fails lines :
  (forall before line1 between line2 after label,
     lines = before ++ line1 :: between ++ line2 :: after ->
     label_of line1 = Some label -> label_of line2 = Some label ->
     exists label',
       first_pass lines = Error (DuplicateLabel label')
       /\ assemble_program lines = Error (DuplicateLabel label'))
  /\ (forall st, first_pass lines = OK st -> NoDup (defined_labels lines)).
Proof.
  assert (Hok : forall st, first_pass lines = OK st -> NoDup (defined_labels lines)).
  { unfold first_pass, first_pass_loop. intros st.
    destruct (for_lines first_pass_step fp_init lines) as [t|] eqn:E; [|discriminate].
    intros _. apply (first_pass_fresh _ _ _ E). }
  split; [|exact Hok].
  intros before line1 between line2 after label -> H1 H2.
  unfold assemble_program.
  destruct (first_pass _) as [st|e] eqn:E.
  - exfalso. specialize (Hok st eq_refl). clear E. rename Hok into E.
    unfold defined_labels in E.
    rewrite omap_app in E. cbn [omap list_omap] in E. rewrite H1 in E.
    apply NoDup_app in E as (_ & _ & E).
    apply NoDup_cons in E as [E _]. apply E.
    fold (omap label_of (between ++ line2 :: after)).
    rewrite omap_app. cbn [omap list_omap]. rewrite H2.
    apply elem_of_app. right. left.
  - unfold first_pass, first_pass_loop in E.
    destruct (for_lines first_pass_step fp_init _) as [t|e'] eqn:E'; [discriminate|].
    cbn [bind] in E. injection E as <-.
    apply first_pass_only_duplicates in E' as [label' ->]. eauto.
Qed.

Lemma duplicate_label_fails_witness :
  (exists label,
     first_pass ["a: add $t0, $t0, $t0"; "a:"]%string
     = Error (DuplicateLabel label))
  /\ (exists label,
        first_pass ["a:"; "b:"; "a: add $t0, $t0, $t0"]%string
        = Error (DuplicateLabel label)).
Proof.
  split.
  - destruct (proj1 (duplicate_label_fails
                ["a: add $t0, $t0, $t0"; "a:"]%string)
                [] "a: add $t0, $t0, $t0"%string [] "a:"%string [] "a"%string
                eq_refl eq_refl eq_refl) as (label & H & _).
    exists label. exact H.
  - destruct (proj1 (duplicate_label_fails
                ["a:"; "b:"; "a: add $t0, $t0, $t0"]%string)
                [] "a:"%string ["b:"%string] "a: add $t0, $t0, $t0"%string []
                "a"%string eq_refl eq_refl eq_refl) as (label & H & _).
    exists label. exact H.
Defined.

Lemma instruction_bearing_split line :
  instruction_bearing line = negb (blank line) && negb (label_only line).
Proof.
  unfold label_only, instruction_bearing.
  destruct (blank line) eqn:B.
  - apply blank_no_instruction in B. unfold instruction_bearing in B.
    now rewrite B.
  - cbn. now destruct (is_empty _).
Qed.

(** C5. In the second pass the running address starts at 0 and
    is advanced by 4 after each line that carries an instruction, that is
    after each line that is neither blank nor a label alone (a line with a
    label alone is not blank, and does not advance it); the first pass
    advances its address on the same lines, so after the same lines the two
    addresses are equal. *)
Theorem second_pass_address_advance st :
  sp_address sp_init = 0
  /\ (forall line,
        instruction_bearing line = negb (blank line) && negb (label_only line))
  /\ (forall s line t,
        second_pass_step st s line = OK t ->
        sp_address t = sp_address s + (if instruction_bearing line then 4 else 0))
  /\ (forall s line t,
        first_pass_step s line = OK t ->
        fp_address t = fp_address s + (if instruction_bearing line then 4 else 0))
  /\ (forall lines t,
        second_pass_loop lines st = OK t ->
        sp_address t = 4 * instruction_count lines
        /\ forall t1, first_pass_loop lines = OK t1 ->
             fp_address t1 = sp_address t).
Proof.
  split; [reflexivity|]. split; [apply instruction_bearing_split|].
  split; [apply second_pass_step_address|].
  split; [apply first_pass_step_address|].
  intros lines t H. apply second_pass_address in H. cbn in H.
  split; [exact H|]. intros t1 H1. apply first_pass_address in H1. cbn in H1.
  lia.
Qed.

Lemma second_pass_address_advance_witness :
  sp_address {| sp_machine_codes := [("L:"%string, None);
                                     ("x: add $t0, $t0, $t0"%string,
                                      Some "0x0108_4020"%string)];
                sp_address := 4 |}
  = 4 * instruction_count [nl; "L:"; "x: add $t0, $t0, $t0"]%string
  /\ sp_address {| sp_machine_codes := [("L:"%string, None)]; sp_address := 0 |}
     = 0 + (if instruction_bearing "L:" then 4 else 0).
Proof.
  split.
  - refine (proj1 (proj2 (proj2 (proj2 (proj2 (second_pass_address_advance ∅))))
                     [nl; "L:"; "x: add $t0, $t0, $t0"]%string _ _)).
    vm_compute. reflexivity.
  - refine (proj1 (proj2 (proj2 (second_pass_address_advance ∅)))
              sp_init "L:"%string _ _).
    vm_compute. reflexivity.
Defined.

(** The address is not advanced after every line that is not blank: a line
    with a label alone leaves it as it is. *)
Lemma label_only_line_keeps_address :
  ~ (forall st lines t,
       second_pass_loop lines st = OK t ->
       sp_address t = 4 * Z.of_nat (length (nonblank_lines lines))).
Proof.
  intros H.
  specialize (H ∅ ["L:"%string]
                {| sp_machine_codes := [("L:"%string, None)]; sp_address := 0 |}
                eq_refl).
  vm_compute in H. discriminate.
Qed.

(** C9. When the first pass succeeds, the address the second pass holds when
    it comes to a line that carries an instruction is the address the first
    pass held at that line: four times the number of lines before it that
    carry an instruction. A label defined on that line, or on one of the
    lines without an instruction just before it, is therefore bound to the
    address of that line. *)
Theorem passes_share_addresses lines st before between line after s2 :
  first_pass lines = OK st ->
  lines = before ++ between ++ line :: after ->
  Forall (fun l => instruction_bearing l = false) between ->
  instruction_bearing line = true ->
  second_pass_loop (before ++ between) st = OK s2 ->
  (exists s1, first_pass_loop (before ++ between) = OK s1
     /\ fp_address s1 = sp_address s2)
  /\ sp_address s2 = 4 * instruction_count before
  /\ (forall l label,
        l ∈ between ++ [line] -> label_of l = Some label ->
        st !! label = Some (sp_address s2)).
Proof.
  intros Hfp -> Hbetween Hline Hsp.
  unfold first_pass, first_pass_loop in Hfp.
  destruct (for_lines first_pass_step fp_init _) as [t|] eqn:Ht; [|discriminate].
  cbn [bind] in Hfp. injection Hfp as <-.
  assert (Ha : sp_address s2 = 4 * instruction_count before).
  { apply second_pass_address in Hsp. cbn in Hsp.
    rewrite instruction_count_app, (instruction_count_none _ Hbetween) in Hsp.
    lia. }
  split; [|split; [exact Ha|]].
  - pose proof Ht as Ht'. rewrite app_assoc, for_lines_app in Ht'.
    unfold first_pass_loop.
    destruct (for_lines first_pass_step fp_init (before ++ between)) as [s1|] eqn:E;
      [|discriminate].
    exists s1. split; [reflexivity|]. apply first_pass_address in E. cbn in E.
    rewrite instruction_count_app, (instruction_count_none _ Hbetween) in E.
    lia.
  - intros l label [Hin | ->%list_elem_of_singleton]%elem_of_app Hl.
    + apply list_elem_of_split in Hin as (x & y & ->).
      rewrite <- !app_assoc, app_assoc in Ht. cbn [app] in Ht.
      rewrite (first_pass_defines _ _ _ _ _ _ Ht Hl). f_equal. cbn.
      apply Forall_app in Hbetween as [Hx _].
      rewrite instruction_count_app, (instruction_count_none _ Hx). lia.
    + rewrite app_assoc in Ht.
      rewrite (first_pass_defines _ _ _ _ _ _ Ht Hl). f_equal. cbn.
      rewrite instruction_count_app, (instruction_count_none _ Hbetween). lia.
Qed.

(** C9 on a program whose branch goes back to a label defined on a line of
    its own, with a blank line between the label and the branch. *)
Lemma passes_share_addresses_witness :
  (exists s1,
     first_pass_loop ["add $t0, $t0, $t0"; "loop:"; nl]%string = OK s1
     /\ fp_address s1 = 4)
  /\ ({["loop"%string := 4]} : gmap string Z) !! "loop"%string = Some 4.
Proof.
  destruct (passes_share_addresses
              ["add $t0, $t0, $t0"; "loop:"; nl; "beq $t0, $t0, loop"]%string
              {["loop"%string := 4]}
              ["add $t0, $t0, $t0"%string] ["loop:"%string; nl]
              "beq $t0, $t0, loop"%string []
              {| sp_machine_codes :=
                   [("add $t0, $t0, $t0"%string, Some "0x0108_4020"%string);
                    ("loop:"%string, None)];
                 sp_address := 4 |})
    as (Ha & _ & Hl).
  - vm_compute. reflexivity.
  - reflexivity.
  - repeat constructor.
  - reflexivity.
  - vm_compute. reflexivity.
  - split; [exact Ha|].
    apply (Hl "loop:"%string "loop"%string); [|reflexivity].
    apply elem_of_app. left. left.
Defined.

Lemma second_pass_codes st lines : forall s t,
  for_lines (second_pass_step st) s lines = OK t ->
  exists results,
    sp_machine_codes t = sp_machine_codes s ++ results
    /\ Forall2 (line_result st) (nonblank_lines lines) results.
Proof.
  induction lines as [|l lines IH]; intros s t; cbn [for_lines].
  - intros [= <-]. exists []. rewrite app_nil_r. split; [reflexivity | constructor].
  - destruct (second_pass_step st s l) as [s'|] eqn:E; [|discriminate]. cbn [bind].
    intros H. destruct (IH _ _ H) as (results & Hc & Hr).
    rewrite second_pass_step_eq in E.
    unfold nonblank_lines in *. cbn [List.filter].
    destruct (blank l) eqn:B; cbn [negb].
    + injection E as <-. exists results. now split.
    + destruct (instruction_bearing l) eqn:Hib.
      * destruct (assemble (instruction_of l) st (sp_address s)) as [code|] eqn:Ha;
          [|discriminate].
        injection E as <-. cbn [sp_machine_codes] in Hc.
        exists ((l, Some code) :: results). split.
        -- rewrite Hc, <- app_assoc. reflexivity.
        -- constructor; [|assumption]. split; [reflexivity|]. cbn [snd].
           split; [assumption|]. split; [eauto|].
           apply (assemble_ok_shape _ _ _ _ Ha).
      * injection E as <-. cbn [sp_machine_codes] in Hc.
        exists ((l, None) :: results). split.
        -- rewrite Hc, <- app_assoc. reflexivity.
        -- constructor; [|assumption]. split; [reflexivity|]. cbn [snd].
           unfold label_only. rewrite B. unfold instruction_bearing in Hib.
           now destruct (is_empty _).
Qed.

(** C3. On success the second pass returns, in order, one result
    for each line that is not blank, and none for a blank line (a line that
    is empty once its comment and the white space around it are removed): a
    line with a label alone gives its text with no code, and a line with an
    instruction gives its text with what the encoder returns for the
    instruction, which is empty when the instruction is made of separators
    only and is otherwise the rendering of the word, of the form 0xHHHH_HHHH
    when the word is below 2^32. *)
Theorem second_pass_results lines st results :
  second_pass lines st = OK results ->
  Forall2 (line_result st) (nonblank_lines lines) results
  /\ length results = length (nonblank_lines lines)
  /\ (forall line code,
        (line, Some code) ∈ results ->
        code = EmptyString
        \/ exists v, 0 <= v /\ code = hex_of v
             /\ (v < 2 ^ 32 -> word_text code = true)).
Proof.
  unfold second_pass, second_pass_loop.
  destruct (for_lines (second_pass_step st) sp_init lines) as [t|] eqn:E;
    [|discriminate].
  cbn [bind]. intros [= <-].
  destruct (second_pass_codes _ _ _ _ E) as (results & Hc & Hr).
  cbn [sp_machine_codes sp_init app] in Hc. rewrite Hc.
  split; [exact Hr|]. split; [symmetry; apply (Forall2_length _ _ _ Hr)|].
  intros line code Hin.
  apply list_elem_of_lookup in Hin as [i Hi].
  destruct (Forall2_lookup_r _ _ _ _ _ Hr Hi) as (l & _ & _ & Hres).
  cbn [snd] in Hres. destruct Hres as (_ & _ & [-> | (v & Hv & ->)]);
    [now left|].
  right. exists v. split; [assumption|]. split; [reflexivity|].
  intros Hlt. apply hex_of_word_text. lia.
Qed.

Lemma second_pass_results_witness :
  Forall2 (line_result ∅)
    (nonblank_lines ["# only a comment"; "L:"; ","; "M: add $t0, $s0, $s1"]%string)
    [("L:", None); (",", Some ""); ("M: add $t0, $s0, $s1", Some "0x0211_4020")]%string.
Proof.
  refine (proj1 (second_pass_results
                   ["# only a comment"; "L:"; ","; "M: add $t0, $s0, $s1"]%string
                   ∅ _ _)).
  vm_compute. reflexivity.
Defined.

(** The second pass does not give one result per input line: a blank line
    gives none. *)
Lemma blank_line_has_no_result :
  ~ (forall lines st results,
       second_pass lines st = OK results -> length results = length lines).
Proof.
  intros H. specialize (H [nl] ∅ [] eq_refl). discriminate.
Qed.

(** * More properties of the program *)

(** ** Registers *)

(** X1. Every register the table accepts has an index of [0, 31], and the
    numeric spelling of every such index is accepted with that index: a name
    and the number it stands for denote the same register. *)
Theorem register_aliases :
  (forall reg_str r, parse_register reg_str = OK r -> 0 <= r < 32)
  /\ (forall r, 0 <= r < 32 ->
        parse_register ("$" +:+ format_int 10 1 r) = OK r).
Proof.
  split; [apply parse_register_range|].
  intros r Hr.
  assert (H : forallb
                (fun n => match parse_register
                                  ("$" +:+ format_int 10 1 (Z.of_nat n)) with
                          | OK v => v =? Z.of_nat n
                          | Error _ => false
                          end) (seq 0 32) = true) by (vm_compute; reflexivity).
  rewrite forallb_forall in H. specialize (H (Z.to_nat r)).
  rewrite Z2Nat.id in H by lia.
  destruct (parse_register _) as [v|]; [|discriminate H; apply in_seq; lia].
  f_equal. apply Z.eqb_eq, H, in_seq. lia.
Qed.

Lemma register_aliases_witness :
  0 <= 8 < 32 /\ parse_register "$8" = OK 8.
Proof.
  split.
  - exact (proj1 register_aliases "$t0"%string 8 eq_refl).
  - exact (proj2 register_aliases 8 ltac:(lia)).
Defined.

(** ** The encoder *)

(** The entries of [INSTRUCTIONS], read back from a lookup. *)
Lemma instructions_entries mnemonic i :
  dict_get INSTRUCTIONS mnemonic = Some i ->
  In (mnemonic, i) INSTRUCTIONS.
Proof.
  unfold INSTRUCTIONS. cbn [dict_get].
  repeat match goal with
    | |- context [String.eqb mnemonic ?k] =>
        destruct (String.eqb_spec mnemonic k) as [-> | _];
        [intros [= <-]; cbn; tauto|]
    end.
  discriminate.
Qed.

(** X2. An [add], [sub], [and], [or] or [slt] with three registers is always
    encoded: opcode 0, then [rs] (the second operand), [rt] (the third),
    [rd] (the first), a shift amount of 0 and the function code, rendered as
    0xHHHH_HHHH. Neither the symbol table nor the address is looked at. *)
Theorem r_type_encoding line part0 o0 o1 o2 st cur funct rd rs rt :
  parts_of line = [part0; o0; o1; o2] ->
  dict_get INSTRUCTIONS (lower part0) = Some (R funct) ->
  lower part0 <> "sll"%string ->
  parse_register o0 = OK rd -> parse_register o1 = OK rs ->
  parse_register o2 = OK rt ->
  assemble line st cur = OK (hex_of (word_R rs rt rd 0 funct))
  /\ word_text (hex_of (word_R rs rt rd 0 funct)) = true
  /\ word_R rs rt rd 0 funct / 2 ^ 26 = 0
  /\ (word_R rs rt rd 0 funct / 2 ^ 21) mod 2 ^ 5 = rs
  /\ (word_R rs rt rd 0 funct / 2 ^ 16) mod 2 ^ 5 = rt
  /\ (word_R rs rt rd 0 funct / 2 ^ 11) mod 2 ^ 5 = rd
  /\ word_R rs rt rd 0 funct mod 2 ^ 11 = funct.
Proof.
  intros Hparts Hi Hsll Hrd Hrs Hrt.
  pose proof (parse_register_range _ _ Hrd).
  pose proof (parse_register_range _ _ Hrs).
  pose proof (parse_register_range _ _ Hrt).
  assert (Hf : 0 <= funct < 64).
  { apply instructions_entries in Hi. cbn in Hi.
    repeat (destruct Hi as [[= _ <-] | Hi]; [lia|]);
      repeat (destruct Hi as [[= _] | Hi]); tauto. }
  split; [|split].
  - rewrite (assemble_parts _ _ _ _ _ Hparts), Hi. unfold assemble_R.
    apply String.eqb_neq in Hsll. rewrite Hsll, Hrd, Hrs, Hrt. cbn [bind].
    apply render_R; lia.
  - apply hex_of_word_text. unfold word_R. lia.
  - unfold word_R. repeat split.
    + apply Z.div_small. lia.
    + replace (rs * 2 ^ 21 + rt * 2 ^ 16 + rd * 2 ^ 11 + 0 * 2 ^ 6 + funct)
        with (rt * 2 ^ 16 + rd * 2 ^ 11 + funct + rs * 2 ^ 21) by lia.
      rewrite Z.div_add, Z.div_small by lia. apply Z.mod_small. lia.
    + replace (rs * 2 ^ 21 + rt * 2 ^ 16 + rd * 2 ^ 11 + 0 * 2 ^ 6 + funct)
        with (rd * 2 ^ 11 + funct + (rt + rs * 2 ^ 5) * 2 ^ 16) by lia.
      rewrite Z.div_add, Z.div_small, Z.add_0_l by lia.
      rewrite Z.mod_add by lia. apply Z.mod_small. lia.
    + replace (rs * 2 ^ 21 + rt * 2 ^ 16 + rd * 2 ^ 11 + 0 * 2 ^ 6 + funct)
        with (funct + (rd + (rt + rs * 2 ^ 5) * 2 ^ 5) * 2 ^ 11) by lia.
      rewrite Z.div_add, Z.div_small, Z.add_0_l by lia.
      rewrite Z.mod_add by lia. apply Z.mod_small. lia.
    + replace (rs * 2 ^ 21 + rt * 2 ^ 16 + rd * 2 ^ 11 + 0 * 2 ^ 6 + funct)
        with (funct + (rd + (rt + rs * 2 ^ 5) * 2 ^ 5) * 2 ^ 11) by lia.
      rewrite Z.mod_add by lia. apply Z.mod_small. lia.
Qed.

Lemma r_type_encoding_witness :
  assemble "slt $t0, $s0, $s1" ∅ 0 = OK "0x0211_402a"%string.
Proof.
  refine (proj1 (r_type_encoding "slt $t0, $s0, $s1" "slt" "$t0" "$s0" "$s1"
                   ∅ 0 0x2a 8 16 17 eq_refl eq_refl _ eq_refl eq_refl eq_refl)).
  discriminate.
Defined.

(** X3. The mnemonic is read without regard to case: two lines whose parts differ
    only in the case of a supported mnemonic are encoded alike. *)
Theorem mnemonic_case_insensitive line1 line2 part1 part2 operands st cur :
  parts_of line1 = part1 :: operands ->
  parts_of line2 = part2 :: operands ->
  lower part1 = lower part2 ->
  is_Some (dict_get INSTRUCTIONS (lower part1)) ->
  assemble line1 st cur = assemble line2 st cur.
Proof.
  intros H1 H2 Hl [i Hi].
  rewrite (assemble_parts _ _ _ _ _ H1), (assemble_parts _ _ _ _ _ H2).
  rewrite <- Hl, Hi. reflexivity.
Qed.

Lemma mnemonic_case_insensitive_witness :
  assemble "ADD $t0, $s0, $s1" ∅ 0 = assemble "add $t0, $s0, $s1" ∅ 0.
Proof.
  apply (mnemonic_case_insensitive _ _ "ADD" "add" ["$t0"; "$s0"; "$s1"]%string);
    try reflexivity.
  eexists. reflexivity.
Defined.

(** X4. A supported instruction with the wrong number of operands (three for an
    R-type or an I-type, one for [j]) fails with the operand count error,
    whatever the operands are: no register, immediate or label is read. *)
Theorem operand_count_checked_first line part0 operands st cur i :
  parts_of line = part0 :: operands ->
  dict_get INSTRUCTIONS (lower part0) = Some i ->
  length operands <> operand_count i ->
  assemble line st cur = Error (OperandCountMismatch (lower part0)).
Proof.
  intros Hparts Hi Hn. rewrite (assemble_parts _ _ _ _ _ Hparts), Hi.
  destruct i as [funct|opcode|opcode]; cbn [operand_count] in Hn.
  - unfold assemble_R.
    destruct operands as [|a [|b [|c [|d l]]]]; try reflexivity.
    now contradict Hn.
  - unfold assemble_I.
    destruct operands as [|a [|b [|c [|d l]]]];
      now destruct (_ || _); [|destruct (_ || _)].
  - unfold assemble_J.
    destruct operands as [|a [|b l]]; try reflexivity.
    now contradict Hn.
Qed.

Lemma operand_count_checked_first_witness :
  assemble "add $t0, $t1" ∅ 0 = Error (OperandCountMismatch "add")
  /\ assemble "j a, b" ∅ 0 = Error (OperandCountMismatch "j")
  /\ assemble "lw $foo" ∅ 0 = Error (OperandCountMismatch "lw").
Proof.
  split; [|split].
  - apply (operand_count_checked_first _ "add" ["$t0"; "$t1"]%string _ _ (R 0x20));
      [reflexivity | reflexivity | cbn; lia].
  - apply (operand_count_checked_first _ "j" ["a"; "b"]%string _ _ (J 2));
      [reflexivity | reflexivity | cbn; lia].
  - apply (operand_count_checked_first _ "lw" ["$foo"]%string _ _ (I 0x23));
      [reflexivity | reflexivity | cbn; lia].
Defined.

(** A mnemonic that is not in the table fails with the unsupported
    instruction error, which shows the part as it was written. *)
Lemma unsupported_mnemonic line part0 operands st cur :
  parts_of line = part0 :: operands ->
  dict_get INSTRUCTIONS (lower part0) = None ->
  assemble line st cur = Error (UnsupportedInstruction part0).
Proof.
  intros Hparts Hi. now rewrite (assemble_parts _ _ _ _ _ Hparts), Hi.
Qed.

(** X5. An [addi] with two registers: an immediate that is no integer gives the
    immediate error; an integer of [-65536, 65535] is encoded, with [rs] the
    second operand, [rt] the first, and the immediate modulo [2^16] in the low
    16 bits. No range is checked: 65535 and -1 give the same word. *)
Theorem addi_encoding line part0 o0 o1 o2 st cur rt rs :
  parts_of line = [part0; o0; o1; o2] -> lower part0 = "addi" ->
  parse_register o0 = OK rt -> parse_register o1 = OK rs ->
  (py_int 10 o2 = None ->
     assemble line st cur = Error (InvalidImmediate "addi"))
  /\ (forall immediate,
        py_int 10 o2 = Some immediate -> - 65536 <= immediate < 65536 ->
        assemble line st cur = OK (hex_of (word_I 8 rs rt immediate))
        /\ word_text (hex_of (word_I 8 rs rt immediate)) = true
        /\ word_I 8 rs rt immediate mod 2 ^ 16 = immediate mod 2 ^ 16).
Proof.
  intros Hparts Hmn Hrt Hrs. split.
  - intros Hi. rewrite (assemble_parts _ _ _ _ _ Hparts), Hmn.
    cbn [dict_get INSTRUCTIONS String.eqb Ascii.eqb Bool.eqb].
    unfold assemble_I; cbn [String.eqb Ascii.eqb Bool.eqb orb].
    rewrite Hrt, Hrs; cbn [bind]. unfold int10. now rewrite Hi.
  - intros immediate Hi Hr. split; [|split].
    + apply (addi_immediate_fits _ _ _ _ _ _ _ _ _ _ Hparts Hmn Hrt Hrs Hi Hr).
    + pose proof (parse_register_range _ _ Hrt).
      pose proof (parse_register_range _ _ Hrs).
      apply hex_of_word_text, word_I_range; lia.
    + apply word_I_immediate.
Qed.

Lemma addi_encoding_witness :
  assemble "addi $t1, $zero, -1" ∅ 0 = OK "0x2009_ffff"%string
  /\ assemble "addi $t1, $zero, 65535" ∅ 0 = OK "0x2009_ffff"%string
  /\ assemble "addi $t1, $zero, five" ∅ 0 = Error (InvalidImmediate "addi").
Proof.
  split; [|split].
  - exact (proj1 (proj2 (addi_encoding "addi $t1, $zero, -1" "addi" "$t1" "$zero"
                           "-1" ∅ 0 9 0 eq_refl eq_refl eq_refl eq_refl)
                    (-1) eq_refl ltac:(lia))).
  - exact (proj1 (proj2 (addi_encoding "addi $t1, $zero, 65535" "addi" "$t1"
                           "$zero" "65535" ∅ 0 9 0 eq_refl eq_refl eq_refl eq_refl)
                    65535 eq_refl ltac:(lia))).
  - exact (proj1 (addi_encoding "addi $t1, $zero, five" "addi" "$t1" "$zero"
                    "five" ∅ 0 9 0 eq_refl eq_refl eq_refl eq_refl) eq_refl).
Defined.

(** X6. A [lw] or [sw] written [rt, immediate(rs)]: the parts are [rt], the
    immediate and [rs]; an immediate that is no integer gives the immediate
    error, and an integer of [-65536, 65535] is encoded with the immediate
    modulo [2^16] in the low 16 bits. *)
Theorem memory_encoding line part0 o0 o1 o2 st cur rt rs :
  parts_of line = [part0; o0; o1; o2] ->
  lower part0 = "lw" \/ lower part0 = "sw" ->
  parse_register o0 = OK rt -> parse_register o2 = OK rs ->
  (py_int 10 o1 = None ->
     assemble line st cur = Error (InvalidImmediate (lower part0)))
  /\ (forall immediate,
        py_int 10 o1 = Some immediate -> - 65536 <= immediate < 65536 ->
        assemble line st cur
        = OK (hex_of (word_I (opcode_of (lower part0)) rs rt immediate))
        /\ word_text (hex_of (word_I (opcode_of (lower part0)) rs rt immediate))
           = true
        /\ word_I (opcode_of (lower part0)) rs rt immediate mod 2 ^ 16
           = immediate mod 2 ^ 16).
Proof.
  intros Hparts Hmn Hrt Hrs. split.
  - intros Hi. rewrite (assemble_parts _ _ _ _ _ Hparts).
    destruct Hmn as [-> | ->];
      cbn [dict_get INSTRUCTIONS String.eqb Ascii.eqb Bool.eqb];
      unfold assemble_I; cbn [String.eqb Ascii.eqb Bool.eqb orb];
      rewrite Hrt, Hrs; cbn [bind]; unfold int10; now rewrite Hi.
  - intros immediate Hi Hr. split; [|split].
    + apply (memory_immediate_fits _ _ _ _ _ _ _ _ _ _ Hparts Hmn Hrt Hrs Hi Hr).
    + pose proof (parse_register_range _ _ Hrt).
      pose proof (parse_register_range _ _ Hrs).
      apply hex_of_word_text, word_I_range;
        [destruct Hmn as [-> | ->]; vm_compute; split; congruence | lia..].
    + apply word_I_immediate.
Qed.

Lemma memory_encoding_witness :
  assemble "lw $t1, -4($sp)" ∅ 0 = OK "0x8fa9_fffc"%string
  /\ assemble "sw $t1, x($sp)" ∅ 0 = Error (InvalidImmediate "sw").
Proof.
  split.
  - exact (proj1 (proj2 (memory_encoding "lw $t1, -4($sp)" "lw" "$t1" "-4" "$sp"
                           ∅ 0 9 29 eq_refl (or_introl eq_refl) eq_refl eq_refl)
                    (-4) eq_refl ltac:(lia))).
  - exact (proj1 (memory_encoding "sw $t1, x($sp)" "sw" "$t1" "x" "$sp"
                    ∅ 0 9 29 eq_refl (or_intror eq_refl) eq_refl eq_refl) eq_refl).
Defined.

(** ** The first pass *)

Lemma instruction_count_nonneg lines : 0 <= instruction_count lines.
Proof.
  induction lines as [|l lines IH]; cbn [instruction_count]; [lia|].
  destruct (instruction_bearing l); lia.
Qed.

Lemma first_pass_domain lines : forall s t,
  for_lines first_pass_step s lines = OK t ->
  forall label,
    is_Some (fp_symbol_table t !! label)
    <-> is_Some (fp_symbol_table s !! label) \/ label ∈ defined_labels lines.
Proof.
  induction lines as [|l lines IH]; intros s t; cbn [for_lines].
  - intros [= <-] label. unfold defined_labels. cbn.
    split; [now left | intros [H | H]; [exact H | inversion H]].
  - destruct (first_pass_step s l) as [s'|] eqn:E; [|discriminate]. cbn [bind].
    intros H label. rewrite (IH _ _ H label).
    apply first_pass_step_table in E.
    unfold defined_labels. cbn [omap list_omap].
    destruct (label_of l) as [lab|].
    + destruct E as [_ ->]. rewrite lookup_insert_is_Some, elem_of_cons.
      destruct (decide (lab = label)) as [-> | Hne]; [tauto|].
      split; [intros [[? | [_ ?]] | ?] | intros [? | [? | ?]]]; auto; congruence.
    + now rewrite E.
Qed.

Lemma first_pass_bounds lines : forall s t,
  for_lines first_pass_step s lines = OK t ->
  (forall (k : string) v, fp_symbol_table s !! k = Some v ->
     0 <= v <= fp_address s /\ v mod 4 = 0) ->
  0 <= fp_address s -> fp_address s mod 4 = 0 ->
  forall (k : string) v, fp_symbol_table t !! k = Some v ->
    0 <= v <= fp_address t /\ v mod 4 = 0.
Proof.
  induction lines as [|l lines IH]; intros s t; cbn [for_lines].
  - now intros [= <-].
  - destruct (first_pass_step s l) as [s'|] eqn:E; [|discriminate]. cbn [bind].
    intros H Hs H0 H4.
    pose proof (first_pass_step_address _ _ _ E) as Ha.
    apply first_pass_step_table in E.
    assert (Hstep : fp_address s <= fp_address s' /\ fp_address s' mod 4 = 0).
    { rewrite Ha. destruct (instruction_bearing l).
      - split; [lia|]. rewrite <- Z.add_mod_idemp_l, H4 by lia. reflexivity.
      - rewrite Z.add_0_r. split; [lia | assumption]. }
    apply (IH _ _ H); [|lia|tauto].
    intros k v Hk. destruct (label_of l) as [lab|].
    + destruct E as [_ E]. rewrite E in Hk.
      destruct (decide (lab = k)) as [-> | Hne].
      * rewrite lookup_insert_eq in Hk. injection Hk as <-. lia.
      * rewrite lookup_insert_ne in Hk by assumption.
        destruct (Hs _ _ Hk). lia.
    + rewrite E in Hk. destruct (Hs _ _ Hk). lia.
Qed.

(** X7. The symbol table of a successful first pass: its keys are the labels the
    lines define; the address of a label is four times the number of lines
    with an instruction before the line that defines it, so it is a multiple
    of 4 between 0 and the size of the program. *)
Theorem first_pass_table lines st :
  first_pass lines = OK st ->
  (forall label, is_Some (st !! label) <-> label ∈ defined_labels lines)
  /\ (forall before line after label,
        lines = before ++ line :: after -> label_of line = Some label ->
        st !! label = Some (4 * instruction_count before))
  /\ (forall label address,
        st !! label = Some address ->
        0 <= address <= 4 * instruction_count lines /\ address mod 4 = 0).
Proof.
  unfold first_pass, first_pass_loop.
  destruct (for_lines first_pass_step fp_init lines) as [t|] eqn:E; [|discriminate].
  cbn [bind]. intros [= <-]. split; [|split].
  - intros label. rewrite (first_pass_domain _ _ _ E label). cbn.
    rewrite lookup_empty. split; [intros [[? [=]] | ?]; assumption | now right].
  - intros before line after label -> Hl.
    now rewrite (first_pass_defines _ _ _ _ _ _ E Hl).
  - intros label address Hk.
    pose proof (first_pass_address _ _ _ E) as Ha. cbn in Ha.
    replace (4 * instruction_count lines) with (fp_address t) by lia.
    apply (first_pass_bounds _ _ _ E) with (k := label);
      [| cbn; lia | reflexivity | exact Hk].
    intros k v. cbn. rewrite lookup_empty. discriminate.
Qed.

Lemma first_pass_table_witness :
  ({["a"%string := 0; "b"%string := 4]} : gmap string Z) !! "b"%string = Some 4
  /\ 0 <= 4 <= 4 * 2 /\ 4 mod 4 = 0.
Proof.
  destruct (first_pass_table
              ["a: add $t0, $t0, $t0"; "b:"; "add $t0, $t0, $t0"]%string
              {["a"%string := 0; "b"%string := 4]}) as (_ & Hd & Hb).
  - vm_compute. reflexivity.
  - split.
    + apply (Hd ["a: add $t0, $t0, $t0"%string] "b:"%string
               ["add $t0, $t0, $t0"%string] "b"%string); reflexivity.
    + apply (Hb "b"%string 4). reflexivity.
Defined.

Lemma first_pass_runs lines : forall s,
  NoDup (defined_labels lines) ->
  (forall label, label ∈ defined_labels lines ->
     fp_symbol_table s !! label = None) ->
  exists t, for_lines first_pass_step s lines = OK t.
Proof.
  induction lines as [|l lines IH]; intros s Hnd Hfresh; cbn [for_lines].
  - eauto.
  - rewrite first_pass_step_eq. cbn zeta.
    unfold defined_labels in *. cbn [omap list_omap] in *.
    destruct (label_of l) as [lab|].
    + apply NoDup_cons in Hnd as [Hnin Hnd].
      rewrite (Hfresh lab) by left. cbn [bind].
      apply IH; [assumption|]. intros label Hin. cbn [fp_symbol_table].
      rewrite lookup_insert_ne; [apply Hfresh; now right|].
      intros ->. contradiction.
    + cbn [bind]. apply IH; assumption.
Qed.

Lemma first_pass_error_label lines : forall s e,
  for_lines first_pass_step s lines = Error e ->
  exists label before after,
    e = DuplicateLabel label
    /\ defined_labels lines = before ++ label :: after
    /\ NoDup before
    /\ (forall x, x ∈ before -> fp_symbol_table s !! x = None)
    /\ (is_Some (fp_symbol_table s !! label) \/ label ∈ before).
Proof.
  induction lines as [|l lines IH]; intros s e; cbn [for_lines]; [discriminate|].
  destruct (first_pass_step s l) as [s'|e'] eqn:E; cbn [bind].
  - intros H. destruct (IH _ _ H) as (label & P & Q & -> & HQ & Hnd & Hfresh & Hin).
    apply first_pass_step_table in E.
    unfold defined_labels in *. cbn [omap list_omap].
    destruct (label_of l) as [lab|].
    + destruct E as [Hnew E]. exists label, (lab :: P), Q.
      split; [reflexivity|]. split; [now rewrite HQ|].
      assert (Hlab : forall x, x ∈ P -> lab <> x).
      { intros x Hx ->. apply Hfresh in Hx.
        rewrite E, lookup_insert_eq in Hx. discriminate. }
      split; [constructor; [|assumption]; intros Hx; now apply (Hlab lab)|].
      split.
      * intros x [-> | Hx]%elem_of_cons; [assumption|].
        specialize (Hfresh _ Hx). rewrite E in Hfresh.
        now rewrite lookup_insert_ne in Hfresh by auto.
      * destruct Hin as [Hin | Hin]; [|right; now right].
        rewrite E, lookup_insert_is_Some in Hin.
        destruct Hin as [-> | [_ Hin]]; [right; left | now left].
    + exists label, P, Q. rewrite E in *. auto.
  - intros [= <-].
    apply first_pass_step_error in E as (label & Hl & Hin & ->).
    unfold defined_labels. cbn [omap list_omap]. rewrite Hl.
    exists label, [], (omap label_of lines).
    split; [reflexivity|]. split; [reflexivity|]. split; [constructor|].
    split; [intros x Hx; inversion Hx | now left].
Qed.

(** X8. The first pass succeeds exactly when the labels of the program are
    pairwise distinct: nothing else in a line can make it fail. When it
    fails, the label it reports is the first definition that repeats an
    earlier one. *)
Theorem first_pass_succeeds_iff lines :
  ((exists st, first_pass lines = OK st) <-> NoDup (defined_labels lines))
  /\ (forall e, first_pass lines = Error e ->
        exists label before after,
          e = DuplicateLabel label
          /\ defined_labels lines = before ++ label :: after
          /\ NoDup before /\ label ∈ before).
Proof.
  unfold first_pass, first_pass_loop. split; [split|].
  - intros [st H].
    destruct (for_lines first_pass_step fp_init lines) as [t|] eqn:E; [|discriminate].
    apply (first_pass_fresh _ _ _ E).
  - intros Hnd. destruct (first_pass_runs lines fp_init Hnd) as [t ->].
    + intros label _. apply lookup_empty.
    + cbn [bind]. eauto.
  - intros e.
    destruct (for_lines first_pass_step fp_init lines) as [t|e'] eqn:E; [discriminate|].
    cbn [bind]. intros [= <-].
    destruct (first_pass_error_label _ _ _ E)
      as (label & P & Q & -> & HQ & Hnd & _ & [[v Hin] | Hin]).
    + cbn in Hin. rewrite lookup_empty in Hin. discriminate.
    + exists label, P, Q. auto.
Qed.

Lemma first_pass_succeeds_iff_witness :
  (exists st, first_pass ["a:"; "lw $nowhere"; "b: c: d"]%string = OK st)
  /\ exists label before after,
       DuplicateLabel "b" = DuplicateLabel label
       /\ defined_labels ["a:"; "b:"; "c:"; "b:"; "a:"]%string
          = before ++ label :: after
       /\ NoDup before /\ label ∈ before.
Proof.
  split.
  - apply (proj2 (proj1 (first_pass_succeeds_iff
                           ["a:"; "lw $nowhere"; "b: c: d"]%string))).
    vm_compute. apply NoDup_cons. split; [|apply NoDup_singleton].
    intros [= ]%list_elem_of_singleton.
  - apply (proj2 (first_pass_succeeds_iff ["a:"; "b:"; "c:"; "b:"; "a:"]%string)).
    vm_compute. reflexivity.
Defined.

(** ** The second pass *)

Lemma second_pass_error_from st lines : forall s0 err,
  for_lines (second_pass_step st) s0 lines = Error err ->
  exists before line after s e,
    lines = before ++ line :: after
    /\ for_lines (second_pass_step st) s0 before = OK s
    /\ instruction_bearing line = true
    /\ assemble (instruction_of line) st (sp_address s) = Error e
    /\ err = LineError (strip line) e.
Proof.
  induction lines as [|l lines IH]; intros s0 err; cbn [for_lines]; [discriminate|].
  destruct (second_pass_step st s0 l) as [s'|e'] eqn:E; cbn [bind].
  - intros H. destruct (IH _ _ H) as (before & line & after & s & e & -> & Hb & Hr).
    exists (l :: before), line, after, s, e.
    split; [reflexivity|]. split; [|exact Hr].
    cbn [for_lines]. now rewrite E.
  - intros [= <-]. rewrite second_pass_step_eq in E.
    destruct (blank l); [discriminate|].
    destruct (instruction_bearing l) eqn:Hib; [|discriminate].
    destruct (assemble _ _ _) as [code|e] eqn:Ha; [discriminate|].
    injection E as <-. exists [], l, lines, s0, e. auto.
Qed.

(** X9. The second pass stops at the first line whose instruction cannot be
    encoded: its error is the error of that line, wrapped with the text of
    the line trimmed, and the lines after it are not looked at. It fails in
    no other way. *)
Theorem second_pass_first_error lines st :
  (forall before line after s e,
     lines = before ++ line :: after ->
     second_pass_loop before st = OK s ->
     instruction_bearing line = true ->
     assemble (instruction_of line) st (sp_address s) = Error e ->
     second_pass lines st = Error (LineError (strip line) e))
  /\ (forall err,
        second_pass lines st = Error err ->
        exists before line after s e,
          lines = before ++ line :: after
          /\ second_pass_loop before st = OK s
          /\ instruction_bearing line = true
          /\ assemble (instruction_of line) st (sp_address s) = Error e
          /\ err = LineError (strip line) e).
Proof.
  unfold second_pass, second_pass_loop. split.
  - intros before line after s e -> Hb Hib Ha.
    rewrite for_lines_app, Hb. cbn [bind for_lines].
    rewrite second_pass_step_eq, Hib, Ha.
    destruct (blank line) eqn:B; [|reflexivity].
    apply blank_no_instruction in B. congruence.
  - intros err.
    destruct (for_lines (second_pass_step st) sp_init lines) as [t|e] eqn:E;
      [discriminate|].
    cbn [bind]. intros [= <-]. apply (second_pass_error_from _ _ _ _ E).
Qed.

Lemma second_pass_first_error_witness :
  second_pass ["add $t0, $t0, $t0"; "  foo $t0  # what"; "bar"]%string ∅
  = Error (LineError "foo $t0  # what" (UnsupportedInstruction "foo")).
Proof.
  apply (proj1 (second_pass_first_error
                  ["add $t0, $t0, $t0"; "  foo $t0  # what"; "bar"]%string ∅)
           ["add $t0, $t0, $t0"%string] "  foo $t0  # what"%string ["bar"%string]
           {| sp_machine_codes :=
                [("add $t0, $t0, $t0"%string, Some "0x0108_4020"%string)];
              sp_address := 4 |}
           (UnsupportedInstruction "foo")); reflexivity.
Defined.

(** ** Lines as the passes read them *)

Lemma before_hash_comment line comment :
  before_hash (line +:+ String "#" comment) = before_hash line.
Proof.
  induction line as [|c line IH]; [reflexivity|].
  cbn [String.append before_hash]. now rewrite IH.
Qed.

Lemma first_pass_step_stripped s line line' :
  stripped line = stripped line' ->
  first_pass_step s line = first_pass_step s line'.
Proof.
  intros H. rewrite !first_pass_step_eq.
  unfold label_of, instruction_bearing, instruction_of. now rewrite H.
Qed.

Lemma first_pass_stripped lines lines' :
  Forall2 (fun l l' => stripped l = stripped l') lines lines' ->
  forall s, for_lines first_pass_step s lines = for_lines first_pass_step s lines'.
Proof.
  induction 1 as [|l l' lines lines' Hl _ IH]; intros s; [reflexivity|].
  cbn [for_lines]. rewrite (first_pass_step_stripped _ _ _ Hl).
  destruct (first_pass_step s l'); [apply IH | reflexivity].
Qed.

Lemma second_pass_stripped st lines lines' :
  Forall2 (fun l l' => stripped l = stripped l') lines lines' ->
  forall s s',
    sp_address s = sp_address s' ->
    map snd (sp_machine_codes s) = map snd (sp_machine_codes s') ->
    match for_lines (second_pass_step st) s lines,
          for_lines (second_pass_step st) s' lines' with
    | OK t, OK t' =>
        sp_address t = sp_address t'
        /\ map snd (sp_machine_codes t) = map snd (sp_machine_codes t')
    | Error _, Error _ => True
    | _, _ => False
    end.
Proof.
  induction 1 as [|l l' lines lines' Hl _ IH]; intros s s' Ha Hc.
  - cbn [for_lines]. now split.
  - cbn [for_lines]. rewrite !second_pass_step_eq.
    unfold blank, instruction_bearing, instruction_of. rewrite Hl, Ha.
    destruct (is_empty (stripped l')); cbn [bind]; [now apply IH|].
    destruct (negb _); cbn [bind].
    + destruct (assemble _ _ _); cbn [bind]; [|exact Logic.I].
      apply IH; cbn [sp_address sp_machine_codes]; [lia|].
      rewrite !map_app. now rewrite Hc.
    + apply IH; cbn [sp_address sp_machine_codes]; [lia|].
      rewrite !map_app. now rewrite Hc.
Qed.

(** X10. A comment changes nothing: with a comment added at the end of any line,
    the first pass gives the same table or the same error, and the second
    pass gives the same codes, line for line, or fails as well. *)
Theorem comment_is_ignored before line comment after st :
  let lines := before ++ line :: after in
  let lines' := before ++ (line +:+ String "#" comment) :: after in
  first_pass lines' = first_pass lines
  /\ codes_only (second_pass lines' st) = codes_only (second_pass lines st).
Proof.
  cbn zeta.
  assert (H : Forall2 (fun l l' => stripped l = stripped l')
                (before ++ (line +:+ String "#" comment) :: after)
                (before ++ line :: after)).
  { apply Forall2_app; [apply Forall_Forall2_diag, Forall_forall; auto|].
    constructor; [|apply Forall_Forall2_diag, Forall_forall; auto].
    unfold stripped. now rewrite before_hash_comment. }
  split.
  - unfold first_pass, first_pass_loop. now rewrite (first_pass_stripped _ _ H).
  - unfold second_pass, second_pass_loop.
    pose proof (second_pass_stripped st _ _ H sp_init sp_init eq_refl eq_refl) as Hs.
    destruct (for_lines _ sp_init (before ++ (line +:+ _) :: after)) as [t|],
             (for_lines _ sp_init (before ++ line :: after)) as [t'|];
      cbn [bind codes_only]; try contradiction; [|reflexivity].
    destruct Hs as [_ ->]. reflexivity.
Qed.

Lemma first_pass_step_blank s line :
  blank line = true -> first_pass_step s line = OK s.
Proof.
  unfold blank, first_pass_step, stripped. now intros ->.
Qed.

Lemma second_pass_step_blank st s line :
  blank line = true -> second_pass_step st s line = OK s.
Proof.
  unfold blank, second_pass_step, stripped. now intros ->.
Qed.

(** X11. A blank line (white space, a comment, or nothing) can be added anywhere:
    the table of the first pass and the results of the second are the same
    with it and without it, and so is what [main] writes. *)
Theorem blank_line_is_ignored before line after st :
  blank line = true ->
  first_pass (before ++ line :: after) = first_pass (before ++ after)
  /\ second_pass (before ++ line :: after) st = second_pass (before ++ after) st
  /\ main (before ++ line :: after) = main (before ++ after).
Proof.
  intros B.
  assert (H1 : first_pass (before ++ line :: after) = first_pass (before ++ after)).
  { unfold first_pass, first_pass_loop. rewrite !for_lines_app.
    destruct (for_lines first_pass_step fp_init before); [|reflexivity].
    cbn [bind for_lines]. now rewrite (first_pass_step_blank _ _ B). }
  assert (H2 : forall st',
             second_pass (before ++ line :: after) st'
             = second_pass (before ++ after) st').
  { intros st'. unfold second_pass, second_pass_loop. rewrite !for_lines_app.
    destruct (for_lines (second_pass_step st') sp_init before); [|reflexivity].
    cbn [bind for_lines]. now rewrite (second_pass_step_blank _ _ _ B). }
  split; [exact H1|]. split; [apply H2|].
  unfold main, assemble_program. rewrite H1.
  destruct (first_pass (before ++ after)); cbn [bind]; [|reflexivity].
  now rewrite H2.
Qed.

Lemma blank_line_is_ignored_witness :
  main ["j end"; "   # nothing here"; "end: add $t0, $t0, $t0"]%string
  = main ["j end"; "end: add $t0, $t0, $t0"]%string.
Proof.
  apply (blank_line_is_ignored ["j end"%string] "   # nothing here"
           ["end: add $t0, $t0, $t0"%string] ∅).
  reflexivity.
Defined.

(** ** Labels across the two passes *)

(** X12. A branch to a label of the program is encoded from a count of
    instructions: with [k] instructions before the line that defines the
    label and [i] before the branch, whose address is [4 * i], the immediate
    is [k - i - 1] (so -1 for a branch to itself), checked against
    [-32768, 32767]. *)
Theorem branch_to_label line part0 o0 o1 label rs rt
    lines st before after target_before target_line target_after :
  first_pass lines = OK st ->
  lines = before ++ line :: after ->
  parts_of (instruction_of line) = [part0; o0; o1; label] ->
  lower part0 = "beq" \/ lower part0 = "bne" ->
  parse_register o0 = OK rs -> parse_register o1 = OK rt ->
  lines = target_before ++ target_line :: target_after ->
  label_of target_line = Some label ->
  assemble (instruction_of line) st (4 * instruction_count before)
  = encode_branch (lower part0) rs rt
      (instruction_count target_before - instruction_count before - 1).
Proof.
  intros Hfp _ Hparts Hmn Hrs Hrt Ht Hl.
  destruct (first_pass_table _ _ Hfp) as (_ & Hd & _).
  specialize (Hd _ _ _ _ Ht Hl).
  apply (branch_resolved _ _ _ _ _ _ _ _ _ Hparts Hmn Hrs Hrt).
  rewrite Hd. f_equal. rewrite Z.shiftr_div_pow2 by lia.
  replace (4 * instruction_count target_before
           - (4 * instruction_count before + 4))
    with ((instruction_count target_before - instruction_count before - 1)
          * 2 ^ 2) by lia.
  apply Z.div_mul. lia.
Qed.

Lemma branch_to_label_witness :
  assemble "beq $t0, $zero, loop" {["loop"%string := 4]} 4
  = OK "0x1100_ffff"%string.
Proof.
  apply (branch_to_label "loop: beq $t0, $zero, loop" "beq" "$t0" "$zero" "loop"
           8 0 ["add $t0, $t0, $t0"; "loop: beq $t0, $zero, loop"]%string
           {["loop"%string := 4]}
           ["add $t0, $t0, $t0"%string] [] ["add $t0, $t0, $t0"%string]
           "loop: beq $t0, $zero, loop" []);
    try reflexivity.
  left. reflexivity.
Defined.

(** X13. A jump to a label of the program is never refused: the label is found,
    its address is a multiple of 4, and in a program of fewer than [2^26]
    instructions the 26 low bits of the word are the number of instructions
    before the line that defines the label. *)
Theorem jump_to_label line part0 label cur
    lines st target_before target_line target_after :
  first_pass lines = OK st ->
  parts_of line = [part0; label] -> lower part0 = "j" ->
  lines = target_before ++ target_line :: target_after ->
  label_of target_line = Some label ->
  instruction_count target_before < 2 ^ 26 ->
  assemble line st cur
  = OK (hex_of (2 * 2 ^ 26 + instruction_count target_before)).
Proof.
  intros Hfp Hparts Hmn Ht Hl Hsmall.
  destruct (first_pass_table _ _ Hfp) as (_ & Hd & _).
  specialize (Hd _ _ _ _ Ht Hl).
  pose proof (instruction_count_nonneg target_before) as Hk.
  rewrite (jump_resolved _ _ _ _ _ Hparts Hmn (4 * instruction_count target_before))
    by now rewrite Hd.
  replace (4 * instruction_count target_before)
    with (instruction_count target_before * 4) by lia.
  rewrite Z.mod_mul by lia. cbn [Z.eqb negb].
  rewrite render_J by lia. unfold word_J. do 2 f_equal.
  rewrite Z.shiftr_div_pow2 by lia.
  change (2 ^ 2) with 4. rewrite Z.div_mul by lia.
  rewrite Z.mod_small by lia. reflexivity.
Qed.

Lemma jump_to_label_witness :
  assemble "j end" {["end"%string := 4]} 0 = OK "0x0800_0001"%string.
Proof.
  apply (jump_to_label "j end" "j" "end" 0
           ["j end"; "end: add $t0, $t0, $t0"]%string {["end"%string := 4]}
           ["j end"%string] "end: add $t0, $t0, $t0" []);
    reflexivity.
Defined.

(** ** What [main] writes *)

Lemma hex_of_not_empty v : hex_of v <> EmptyString.
Proof. unfold hex_of. cbn [String.append]. discriminate. Qed.

Lemma assemble_code_empty line st cur code :
  assemble line st cur = OK code ->
  (parts_of line = [] /\ code = EmptyString)
  \/ (parts_of line <> [] /\ code <> EmptyString).
Proof.
  intros H. unfold assemble in H.
  destruct (parts_of line) as [|part0 operands] eqn:Hp.
  - injection H as <-. now left.
  - right. split; [discriminate|].
    destruct (dict_get INSTRUCTIONS (lower part0)) as [i|]; [|discriminate].
    match type of H with bind ?a _ = _ => destruct a as [b|]; [|discriminate] end.
    cbn [bind] in H. unfold render in H.
    destruct (py_int 2 b) as [v|]; [|discriminate].
    injection H as <-. apply hex_of_not_empty.
Qed.

Lemma instruction_of_none line :
  instruction_bearing line = false -> has_parts line = false.
Proof.
  unfold instruction_bearing, has_parts. intros H.
  destruct (instruction_of line); [reflexivity | discriminate].
Qed.

Lemma print_codes_app a b : print_codes (a ++ b) = print_codes a ++ print_codes b.
Proof.
  induction a as [|[l [[|c code]|]] a IH]; cbn [print_codes app];
    [reflexivity | assumption | now rewrite IH | assumption].
Qed.

Lemma second_pass_prints st lines : forall s t,
  for_lines (second_pass_step st) s lines = OK t ->
  exists results,
    sp_machine_codes t = sp_machine_codes s ++ results
    /\ Forall2 (printed_for st) (printed_lines lines) (print_codes results).
Proof.
  induction lines as [|l lines IH]; intros s t; cbn [for_lines].
  - intros [= <-]. exists []. rewrite app_nil_r. split; [reflexivity | constructor].
  - destruct (second_pass_step st s l) as [s'|] eqn:E; [|discriminate]. cbn [bind].
    intros H. destruct (IH _ _ H) as (results & Hc & Hr).
    rewrite second_pass_step_eq in E.
    unfold printed_lines in *. cbn [List.filter].
    destruct (blank l) eqn:B.
    + injection E as <-.
      rewrite (instruction_of_none _ (blank_no_instruction _ B)).
      exists results. now split.
    + destruct (instruction_bearing l) eqn:Hib.
      * destruct (assemble (instruction_of l) st (sp_address s)) as [code|] eqn:Ha;
          [|discriminate].
        injection E as <-. cbn [sp_machine_codes] in Hc.
        exists ((l, Some code) :: results).
        split; [rewrite Hc, <- app_assoc; reflexivity|].
        unfold has_parts.
        destruct (assemble_code_empty _ _ _ _ Ha) as [[-> ->] | [Hp Hne]].
        -- exact Hr.
        -- destruct (parts_of (instruction_of l)); [contradiction|].
           destruct code as [|c code]; [contradiction|].
           cbn [print_codes]. constructor; [|exact Hr].
           exists (sp_address s), (String c code). auto.
      * injection E as <-. cbn [sp_machine_codes] in Hc.
        rewrite (instruction_of_none _ Hib).
        exists ((l, None) :: results).
        split; [rewrite Hc, <- app_assoc; reflexivity | exact Hr].
Qed.

(** X14. What [main] writes after its three opening texts. When a pass fails, it
    writes the error on the error stream and nothing else: no header and no
    machine code, not even for the lines before the faulty one. When both
    passes succeed, it writes the header and then, in order, one line for each
    line of the program whose instruction has at least one part: the code, a
    tab, the comment mark and the line trimmed. A blank line, a line with a
    label alone and a line of separators give no output. *)
Theorem main_output lines :
  (forall e, assemble_program lines = Error e ->
     main lines = [Stdout Banner; Stdout Prompt; Stdout InputAccepted;
                   Stderr (ErrorMessage e)])
  /\ (forall st, first_pass lines = OK st ->
        is_Some (codes_only (second_pass lines st)) ->
        exists printed,
          main lines = [Stdout Banner; Stdout Prompt; Stdout InputAccepted;
                        Stdout OutputHeader] ++ printed
          /\ Forall2 (printed_for st) (printed_lines lines) printed).
Proof.
  split.
  - intros e H. unfold main. now rewrite H.
  - intros st Hfp [cs Hcs]. unfold main, assemble_program. rewrite Hfp.
    cbn [bind]. unfold second_pass, second_pass_loop in *.
    destruct (for_lines (second_pass_step st) sp_init lines) as [t|] eqn:E;
      [|discriminate].
    cbn [bind]. destruct (second_pass_prints _ _ _ _ E) as (results & Hc & Hr).
    cbn [sp_machine_codes sp_init app] in Hc. rewrite Hc.
    exists (print_codes results). split; [reflexivity | exact Hr].
Qed.

Lemma main_output_witness :
  main ["add $t0, $t0, $t0"; "j nowhere"]%string
  = [Stdout Banner; Stdout Prompt; Stdout InputAccepted;
     Stderr (ErrorMessage
               (LineError "j nowhere" (InvalidLabelOrAddress "j" "nowhere")))]
  /\ exists printed,
       main ["L:"; ","; " add $t0, $s0, $s1 # sum" +:+ nl]%string
       = [Stdout Banner; Stdout Prompt; Stdout InputAccepted; Stdout OutputHeader]
         ++ printed
       /\ Forall2 (printed_for {["L"%string := 0]})
            [" add $t0, $s0, $s1 # sum" +:+ nl]%string printed.
Proof.
  split.
  - apply (proj1 (main_output ["add $t0, $t0, $t0"; "j nowhere"]%string)).
    vm_compute. reflexivity.
  - apply (proj2 (main_output ["L:"; ","; " add $t0, $s0, $s1 # sum" +:+ nl]%string)
             {["L"%string := 0]}).
    + vm_compute. reflexivity.
    + vm_compute. eauto.
Defined.

Example main_prints :
  main ["L:"; ","; " add $t0, $s0, $s1 # sum" +:+ nl]%string
  = [Stdout Banner; Stdout Prompt; Stdout InputAccepted; Stdout OutputHeader;
     Stdout (CodeLine ("0x0211_4020" +:+ tab +:+ "# add $t0, $s0, $s1 # sum"))].
Proof. vm_compute. reflexivity. Qed.

(** ** The parts of a line *)

Lemma all_chars_impl (P Q : ascii -> bool) s :
  (forall c, P c = true -> Q c = true) ->
  all_chars P s = true -> all_chars Q s = true.
Proof.
  intros H. induction s as [|c s IH]; cbn [all_chars]; [reflexivity|].
  intros [Hc Hs]%andb_true_iff. now rewrite (H _ Hc), IH.
Qed.

Lemma split_nil s : split s = [] <-> all_chars isspace s = true.
Proof.
  induction s as [|c s IH]; cbn [split all_chars]; [tauto|].
  destruct (isspace c); cbn [andb]; [exact IH|].
  split; [|discriminate].
  destruct s as [|c' s]; [discriminate|].
  destruct (isspace c'); [discriminate|].
  destruct (split (String c' s)); discriminate.
Qed.

Lemma split_parts (P : ascii -> bool) s :
  all_chars (fun c => isspace c || P c) s = true ->
  Forall (fun p => p <> EmptyString /\ all_chars P p = true) (split s).
Proof.
  induction s as [|c s IH]; cbn [split all_chars]; [constructor|].
  intros [Hc Hs]%andb_true_iff. specialize (IH Hs).
  destruct (isspace c) eqn:Ec; [exact IH|]. cbn [orb] in Hc.
  assert (Hone : String c EmptyString <> EmptyString
                 /\ all_chars P (String c EmptyString) = true).
  { split; [discriminate|]. cbn [all_chars]. now rewrite Hc. }
  destruct s as [|c' s]; [now repeat constructor|].
  destruct (isspace c') eqn:Ec'; [now constructor|].
  destruct (split (String c' s)) as [|t ts]; [now repeat constructor|].
  apply Forall_cons in IH as [[_ Ht] Hts].
  constructor; [|exact Hts]. split; [discriminate|].
  cbn [all_chars]. now rewrite Hc, Ht.
Qed.

Lemma replaced_char c :
  let r := (if Ascii.eqb (if Ascii.eqb (if Ascii.eqb c "," then " " else c) "("
                          then " " else if Ascii.eqb c "," then " " else c) ")"
            then " " else if Ascii.eqb (if Ascii.eqb c "," then " " else c) "("
                          then " " else if Ascii.eqb c "," then " " else c)%char in
  isspace r = is_separator c /\ (isspace r || negb (is_separator r)) = true.
Proof.
  cbn zeta. unfold is_separator.
  destruct (Ascii.eqb_spec c ",") as [-> | H1]; [split; reflexivity|].
  destruct (Ascii.eqb_spec c "(") as [-> | H2]; [split; reflexivity|].
  destruct (Ascii.eqb_spec c ")") as [-> | H3]; [split; reflexivity|].
  apply Ascii.eqb_neq in H1, H2, H3. rewrite H1, H2, H3.
  rewrite !orb_false_r. split; [reflexivity|]. now destruct (isspace c).
Qed.

Lemma replaced_chars s :
  let r := replace ")" " " (replace "(" " " (replace "," " " s)) in
  all_chars isspace r = all_chars is_separator s
  /\ all_chars (fun c => isspace c || negb (is_separator c)) r = true.
Proof.
  cbn zeta. induction s as [|c s [IH1 IH2]]; [split; reflexivity|].
  cbn [replace all_chars]. destruct (replaced_char c) as [H1 H2].
  cbn zeta in H1, H2. split; [now rewrite H1, IH1 | now rewrite H2, IH2].
Qed.

Lemma all_chars_lstrip (P : ascii -> bool) s :
  (forall c, isspace c = true -> P c = true) ->
  all_chars P (lstrip s) = all_chars P s.
Proof.
  intros H. induction s as [|c s IH]; cbn [lstrip all_chars]; [reflexivity|].
  destruct (isspace c) eqn:E; [|reflexivity]. now rewrite IH, (H _ E).
Qed.

Lemma all_chars_rstrip (P : ascii -> bool) s :
  (forall c, isspace c = true -> P c = true) ->
  all_chars P (rstrip s) = all_chars P s.
Proof.
  intros H. induction s as [|c s IH]; cbn [rstrip all_chars]; [reflexivity|].
  rewrite <- IH. destruct (rstrip s) as [|c' r].
  - destruct (isspace c) eqn:E; cbn [all_chars]; [now rewrite (H _ E) | reflexivity].
  - reflexivity.
Qed.

Lemma separator_of_space c : isspace c = true -> is_separator c = true.
Proof. unfold is_separator. now intros ->. Qed.

(** X15. Every part of a line is a text that is not empty and that holds no white
    space, no comma and no parenthesis: the mnemonic and the operands reach
    the table lookups and [int] without any separator left. *)
Theorem parts_are_clean line :
  Forall (fun part =>
            part <> EmptyString
            /\ all_chars (fun c => negb (is_separator c)) part = true)
    (parts_of line).
Proof.
  unfold parts_of. apply split_parts.
  apply (proj2 (replaced_chars (strip line))).
Qed.

(** X16. The encoder returns the empty text, without an error, exactly for the
    lines made of white space, commas and parentheses only. *)
Theorem empty_code_iff line st cur :
  assemble line st cur = OK EmptyString
  <-> all_chars is_separator line = true.
Proof.
  assert (Hp : parts_of line = [] <-> all_chars is_separator line = true).
  { unfold parts_of. rewrite split_nil.
    rewrite (proj1 (replaced_chars (strip line))). unfold strip.
    rewrite all_chars_rstrip, all_chars_lstrip by apply separator_of_space.
    reflexivity. }
  rewrite <- Hp. split.
  - intros H. destruct (assemble_code_empty _ _ _ _ H) as [[H0 _] | [_ H0]];
      [assumption | contradiction].
  - intros H. unfold assemble. now rewrite H.
Qed.

Lemma empty_code_iff_witness :
  assemble " ,( ) " ∅ 0 = OK EmptyString.
Proof.
  apply (proj2 (empty_code_iff " ,( ) " ∅ 0)). reflexivity.
Defined.

(** ** Labels *)

Lemma label_char_plain c :
  is_label_char c = true ->
  isspace c = false /\ Ascii.eqb c "#" = false /\ Ascii.eqb c ":" = false.
Proof.
  intros H. split; [|split].
  - unfold is_label_char, isspace in *. set (n := ord c) in *. lia.
  - destruct (Ascii.eqb_spec c "#") as [-> |]; [discriminate | reflexivity].
  - destruct (Ascii.eqb_spec c ":") as [-> |]; [discriminate | reflexivity].
Qed.

Lemma rstrip_nonspace c s :
  isspace c = false -> rstrip (String c s) = String c (rstrip s).
Proof. intros H. cbn [rstrip]. rewrite H. now destruct (rstrip s). Qed.

Lemma label_chars_all s :
  all_chars is_label_char (fst (label_chars s)) = true.
Proof.
  induction s as [|c s IH]; cbn [label_chars]; [reflexivity|].
  destruct (is_label_char c) eqn:E; [|reflexivity].
  destruct (label_chars s) as [l r]. cbn [fst all_chars] in *. now rewrite E, IH.
Qed.

Lemma label_prefix label rest :
  all_chars is_label_char label = true ->
  before_hash (label +:+ String ":" rest) = label +:+ String ":" (before_hash rest)
  /\ (forall r, rstrip (label +:+ String ":" r) = label +:+ String ":" (rstrip r))
  /\ (forall r, label_chars (label +:+ String ":" r) = (label, String ":" r)).
Proof.
  induction label as [|c label IH]; cbn [all_chars String.append].
  - intros _. split; [reflexivity|]. split; [|reflexivity].
    intros r. now apply rstrip_nonspace.
  - intros [Hc Hl]%andb_true_iff. destruct (IH Hl) as (H1 & H2 & H3).
    destruct (label_char_plain _ Hc) as (Hs & Hh & _).
    split; [|split].
    + cbn [before_hash]. now rewrite Hh, H1.
    + intros r. now rewrite (rstrip_nonspace _ _ Hs), H2.
    + intros r. cbn [label_chars]. now rewrite Hc, H3.
Qed.

(** X17. How a label is written and read. A line that starts with a text of
    letters, digits and underscores, not empty, followed by a colon defines
    that label, whatever follows the colon; and a label that a line defines
    is always such a text. *)
Theorem label_definition :
  (forall label rest,
     label <> EmptyString -> all_chars is_label_char label = true ->
     label_of (label +:+ String ":" rest) = Some label)
  /\ (forall line label,
        label_of line = Some label ->
        label <> EmptyString /\ all_chars is_label_char label = true).
Proof.
  split.
  - intros label rest Hne Hl.
    destruct (label_prefix label rest Hl) as (H1 & H2 & H3).
    unfold label_of, stripped, strip. rewrite H1.
    destruct label as [|c label]; [contradiction|].
    cbn [all_chars] in Hl. apply andb_true_iff in Hl as [Hc _].
    destruct (label_char_plain _ Hc) as (Hs & _ & _).
    assert (Hls : forall x, lstrip (String c label +:+ x) = String c label +:+ x).
    { intros x. cbn [String.append lstrip]. now rewrite Hs. }
    rewrite Hls, H2. unfold label_match. rewrite Hls, H3. reflexivity.
  - intros line label. unfold label_of, label_match.
    pose proof (label_chars_all (lstrip (stripped line))) as Ha.
    destruct (label_chars (lstrip (stripped line))) as [l r].
    cbn [fst] in Ha.
    destruct l as [|c l]; [discriminate|].
    destruct r as [|c' r]; [discriminate|].
    destruct (Ascii.eqb c' ":"); [|discriminate].
    intros [= <-]. split; [discriminate | exact Ha].
Qed.

Lemma label_definition_witness :
  label_of "loop_1: add $t0, $t0, $t0  # again" = Some "loop_1"%string
  /\ "8"%string <> EmptyString /\ all_chars is_label_char "8" = true.
Proof.
  split.
  - apply (proj1 label_definition "loop_1" " add $t0, $t0, $t0  # again")%string;
      [discriminate | reflexivity].
  - apply (proj2 label_definition "8: j 8" "8")%string. reflexivity.
Defined.

(** ** What the encoder reads *)

(** X18. In every instruction of three operands the first operand is a register
    and is read first: if the table of registers does not have it, the line
    fails with the unknown register error for that operand, whatever the
    other operands are. *)
Theorem first_operand_is_register line part0 o0 o1 o2 st cur i :
  parts_of line = [part0; o0; o1; o2] ->
  dict_get INSTRUCTIONS (lower part0) = Some i ->
  operand_count i = 3%nat ->
  dict_get REGISTER_MAP o0 = None ->
  assemble line st cur = Error (UnknownRegister o0).
Proof.
  intros Hparts Hi Hn Hr. rewrite (assemble_parts _ _ _ _ _ Hparts), Hi.
  assert (Hp : parse_register o0 = Error (UnknownRegister o0))
    by (unfold parse_register; now rewrite Hr).
  destruct i as [funct|opcode|opcode]; [| |discriminate].
  - unfold assemble_R. destruct (String.eqb _ _); now rewrite Hp.
  - unfold assemble_I.
    destruct (_ || _); [|destruct (_ || _)]; now rewrite Hp.
Qed.

Lemma first_operand_is_register_witness :
  assemble "lw $T0, x($nowhere)" ∅ 0 = Error (UnknownRegister "$T0").
Proof.
  apply (first_operand_is_register _ "lw" "$T0" "x" "$nowhere" ∅ 0 (I 0x23));
    reflexivity.
Defined.

(** X19. The encoder reads the address of the line for [beq] and [bne] only, and
    the symbol table for [beq], [bne] and [j] only: every other line is
    encoded alike at every address and with every table. *)
Theorem encoder_reads line part0 operands st st' cur cur' :
  parts_of line = part0 :: operands ->
  lower part0 <> "beq"%string -> lower part0 <> "bne"%string ->
  assemble line st cur = assemble line st cur'
  /\ (lower part0 <> "j"%string ->
      assemble line st cur = assemble line st' cur').
Proof.
  intros Hparts Hbeq%String.eqb_neq Hbne%String.eqb_neq.
  rewrite !(assemble_parts _ _ _ _ _ Hparts).
  destruct (dict_get INSTRUCTIONS (lower part0)) as [i|] eqn:Hi;
    [|split; reflexivity].
  destruct i as [funct|opcode|opcode].
  - split; reflexivity.
  - unfold assemble_I. rewrite Hbeq, Hbne. cbn [orb].
    destruct (_ || _); split; reflexivity.
  - split; [reflexivity|]. intros Hj. exfalso. apply Hj.
    apply instructions_entries in Hi. cbn in Hi.
    repeat (destruct Hi as [Hi | Hi];
            [first [discriminate Hi | now injection Hi as <- _]|]).
    destruct Hi.
Qed.

Lemma encoder_reads_witness :
  assemble "sw $t0, 8($sp)" ∅ 0 = assemble "sw $t0, 8($sp)" {["8"%string := 64]} 400.
Proof.
  apply (proj2 (encoder_reads "sw $t0, 8($sp)" "sw" ["$t0"; "8"; "$sp"]%string
                  ∅ {["8"%string := 64]} 0 400 eq_refl ltac:(discriminate)
                  ltac:(discriminate))).
  discriminate.
Defined.

(** ** Fields that fit *)

(** X20. A [j] whose target, from a label or from a literal, is a multiple of 4 in
    [-2^28, 2^28) is encoded as 0xHHHH_HHHH with opcode 2 in the six high
    bits and the target divided by 4, modulo [2^26], in the 26 low bits. *)
Theorem jump_word line part0 label st cur target_address :
  parts_of line = [part0; label] -> lower part0 = "j" ->
  st !! label = Some target_address
  \/ (st !! label = None /\ py_int 10 label = Some target_address) ->
  target_address mod 4 = 0 ->
  - 2 ^ 28 <= target_address < 2 ^ 28 ->
  assemble line st cur = OK (hex_of (word_J 2 target_address))
  /\ word_text (hex_of (word_J 2 target_address)) = true
  /\ word_J 2 target_address / 2 ^ 26 = 2
  /\ word_J 2 target_address mod 2 ^ 26 = (target_address / 4) mod 2 ^ 26.
Proof.
  intros Hparts Hmn Hres Ha Hr.
  assert (Hm : 0 <= Z.shiftr target_address 2 mod 2 ^ 26 < 2 ^ 26)
    by (apply Z.mod_pos_bound; lia).
  split; [|split; [|split]].
  - apply (proj2 (jump_encoding _ _ _ st cur Hparts Hmn) _ Hres); assumption.
  - apply hex_of_word_text. unfold word_J. lia.
  - unfold word_J.
    replace (2 * 2 ^ 26 + Z.shiftr target_address 2 mod 2 ^ 26)
      with (Z.shiftr target_address 2 mod 2 ^ 26 + 2 * 2 ^ 26) by lia.
    rewrite Z.div_add, Z.div_small by lia. reflexivity.
  - unfold word_J.
    replace (2 * 2 ^ 26 + Z.shiftr target_address 2 mod 2 ^ 26)
      with (Z.shiftr target_address 2 mod 2 ^ 26 + 2 * 2 ^ 26) by lia.
    rewrite Z.mod_add, Z.mod_mod by lia.
    now rewrite Z.shiftr_div_pow2 by lia.
Qed.

Lemma jump_word_witness :
  assemble "j -4" ∅ 0 = OK "0x0bff_ffff"%string.
Proof.
  refine (proj1 (jump_word "j -4" "j" "-4" ∅ 0 (-4) eq_refl eq_refl
                   (or_intror (conj eq_refl eq_refl)) eq_refl _)).
  lia.
Defined.

(** X21. [to_binary] and [int] are inverse on the values that fit: for a signed
    value of [bits] bits the text has [bits] binary digits, and read back as
    a number, then taken as signed, it gives the value again. *)
Theorem to_binary_round_trip n bits :
  (2 <= bits)%nat ->
  - 2 ^ (Z.of_nat bits - 1) <= n < 2 ^ (Z.of_nat bits - 1) ->
  String.length (to_binary n bits) = bits
  /\ exists v,
       py_int 2 (to_binary n bits) = Some v
       /\ 0 <= v < 2 ^ Z.of_nat bits
       /\ (if v <? 2 ^ (Z.of_nat bits - 1) then v else v - 2 ^ Z.of_nat bits) = n.
Proof.
  intros Hk Hn.
  assert (Hp : 2 ^ Z.of_nat bits = 2 * 2 ^ (Z.of_nat bits - 1)).
  { rewrite <- Z.pow_succ_r by lia. f_equal. lia. }
  assert (0 < 2 ^ (Z.of_nat bits - 1)) by (apply Z.pow_pos_nonneg; lia).
  destruct (to_binary_fits n bits Hk ltac:(lia)) as [Hlen Hint].
  split; [exact Hlen|]. exists (n mod 2 ^ Z.of_nat bits).
  split; [exact Hint|]. split; [apply Z.mod_pos_bound; lia|].
  destruct (Z.lt_ge_cases n 0).
  - replace (n mod 2 ^ Z.of_nat bits) with (n + 2 ^ Z.of_nat bits)
      by (apply Z.mod_unique with (q := -1); lia).
    destruct (Z.ltb_spec (n + 2 ^ Z.of_nat bits) (2 ^ (Z.of_nat bits - 1))); lia.
  - rewrite Z.mod_small by lia.
    destruct (Z.ltb_spec n (2 ^ (Z.of_nat bits - 1))); lia.
Qed.

Lemma to_binary_round_trip_witness :
  String.length (to_binary (-32768) 16) = 16%nat
  /\ exists v,
       py_int 2 (to_binary (-32768) 16) = Some v
       /\ 0 <= v < 2 ^ 16
       /\ (if v <? 2 ^ 15 then v else v - 2 ^ 16) = -32768.
Proof.
  refine (to_binary_round_trip (-32768) 16 _ _); [lia | simpl; lia].
Defined.
